(** * Room synchronisation server: a shallow embedding

    This development embeds the socket server of the watch-party
    application (the [io.on('connection', ...)] block and
    [convertToEmbedUrl]) and proves properties of its event handlers.

    - JavaScript [Map]s keep insertion order, and the handlers expose that
      order ([Array.from(room.members.values())]); they are modelled as
      association lists with the [Map] operations written out.
    - The socket.io room registry (which connection has joined which
      transport room) is a finite map from room names to sets of socket
      ids; every emit is recorded with the set of sockets it reaches.
    - JavaScript numbers are IEEE-754 doubles: primitive floats.
    - The handlers are state-passing functions returning the new server
      state and the list of emits they performed, in program order. *)

From Stdlib Require Import ZArith Floats String Ascii.
From stdpp Require Import gmap strings list.

Open Scope string_scope.

(** ** JavaScript [Map] with string keys *)

Definition JsMap (V : Type) : Type := list (string * V).

Fixpoint Map_get {V : Type} (k : string) (m : JsMap V) : option V :=
  match m with
  | [] => None
  | (k', v) :: m' => if String.eqb k' k then Some v else Map_get k m'
  end.

Definition Map_has {V : Type} (k : string) (m : JsMap V) : bool :=
  match Map_get k m with Some _ => true | None => false end.

(** [m.set(k, v)]: an existing key keeps its position, a new key is
    appended. *)
Fixpoint Map_set {V : Type} (k : string) (v : V) (m : JsMap V) : JsMap V :=
  match m with
  | [] => [(k, v)]
  | (k', v') :: m' =>
      if String.eqb k' k then (k, v) :: m' else (k', v') :: Map_set k v m'
  end.

Fixpoint Map_delete {V : Type} (k : string) (m : JsMap V) : JsMap V :=
  match m with
  | [] => []
  | (k', v') :: m' =>
      if String.eqb k' k then m' else (k', v') :: Map_delete k m'
  end.

Definition Map_size {V : Type} (m : JsMap V) : nat := length m.

Definition Map_values {V : Type} (m : JsMap V) : list V := snd <$> m.

Definition Map_keys {V : Type} (m : JsMap V) : list string := fst <$> m.

Definition Map_entries {V : Type} (m : JsMap V) : list (string * V) := m.

(** ** Data model ([interface RoomMember], [VideoState], [RoomState]) *)

Record RoomMember : Type := {
  id : string;
  name : string;
  image : option string
}.

Record VideoState : Type := {
  url : string;
  timestamp : float;
  isPlaying : bool
}.

Record RoomState : Type := {
  members : JsMap RoomMember;
  videoState : option VideoState
}.

(** ** The platform's [URL] class

    Only the three accessors [convertToEmbedUrl] reads are kept:
    [hostname], [pathname] and [searchParams]. *)

Record URL : Type := {
  hostname : string;
  pathname : string;
  searchParams : list (string * string)
}.

(** [searchParams.get(name)]: the value of the first pair called [name]. *)
Fixpoint searchParams_get (key : string) (ps : list (string * string))
  : option string :=
  match ps with
  | [] => None
  | (k, v) :: ps' => if String.eqb k key then Some v else searchParams_get key ps'
  end.

(** [s.slice(1)] *)
Definition slice1 (s : string) : string :=
  match s with
  | EmptyString => EmptyString
  | String _ r => r
  end.

Definition embed_prefix : string := "https://www.youtube.com/embed/".

(** ** A reference URL parser

    [convertToEmbedUrl] is embedded over an arbitrary parser standing for
    [new URL(url)] ([None] when the constructor throws).  [URL_basic] is
    the instance used to run the code on concrete inputs.  It follows the
    URL Standard on absolute URLs in plain form: one of the schemes
    http, https, ws, wss or ftp, then [://], a host written with letters,
    digits, [.] and [-], a path, an optional [?query] and an optional
    [#fragment], none of which needs normalising (no credentials or port,
    no dot segments, no percent escapes, blanks or backslashes).  The host
    and scheme are lower-cased as the standard does; everything else is
    reported as a parse failure or split without further normalisation. *)

Fixpoint break (p : ascii -> bool) (s : string) : string * string :=
  match s with
  | EmptyString => (EmptyString, EmptyString)
  | String c r =>
      if p c then (EmptyString, s)
      else let (a, b) := break p r in (String c a, b)
  end.

Fixpoint String_includes (c : ascii) (s : string) : bool :=
  match s with
  | EmptyString => false
  | String c' r => Ascii.eqb c' c || String_includes c r
  end.

Fixpoint String_forallb (p : ascii -> bool) (s : string) : bool :=
  match s with
  | EmptyString => true
  | String c r => p c && String_forallb p r
  end.

Fixpoint String_map (f : ascii -> ascii) (s : string) : string :=
  match s with
  | EmptyString => EmptyString
  | String c r => String (f c) (String_map f r)
  end.

Definition is_upper (c : ascii) : bool :=
  (65 <=? nat_of_ascii c)%nat && (nat_of_ascii c <=? 90)%nat.

Definition is_lower (c : ascii) : bool :=
  (97 <=? nat_of_ascii c)%nat && (nat_of_ascii c <=? 122)%nat.

Definition is_digit (c : ascii) : bool :=
  (48 <=? nat_of_ascii c)%nat && (nat_of_ascii c <=? 57)%nat.

Definition to_lower (c : ascii) : ascii :=
  if is_upper c then ascii_of_nat (nat_of_ascii c + 32) else c.

Definition is_host_char (c : ascii) : bool :=
  is_upper c || is_lower c || is_digit c
  || Ascii.eqb c "."%char || Ascii.eqb c "-"%char.

Definition is_special_scheme (s : string) : bool :=
  String.eqb s "http" || String.eqb s "https" || String.eqb s "ws"
  || String.eqb s "wss" || String.eqb s "ftp".

Definition is_colon (c : ascii) : bool := Ascii.eqb c ":"%char.

Definition ends_authority (c : ascii) : bool :=
  Ascii.eqb c "/"%char || Ascii.eqb c "\"%char
  || Ascii.eqb c "?"%char || Ascii.eqb c "#"%char.

Definition ends_path (c : ascii) : bool :=
  Ascii.eqb c "?"%char || Ascii.eqb c "#"%char.

Definition ends_query (c : ascii) : bool := Ascii.eqb c "#"%char.

Definition is_amp (c : ascii) : bool := Ascii.eqb c "&"%char.

Definition is_equals (c : ascii) : bool := Ascii.eqb c "="%char.

(** One [name=value] piece of a query string. *)
Definition parse_pair (piece : string) : string * string :=
  let (k, v) := break is_equals piece in (k, slice1 v).

(** The pieces of a query string between [&]; the accumulator holds the
    piece being read. *)
Fixpoint split_amp (acc : string) (q : string) : list string :=
  match q with
  | EmptyString => [acc]
  | String c r =>
      if is_amp c then acc :: split_amp EmptyString r
      else split_amp (acc ++ String c EmptyString) r
  end.

Definition parse_query (q : string) : list (string * string) :=
  map parse_pair
    (filter (fun piece => negb (String.eqb piece EmptyString))
       (split_amp EmptyString q)).

Definition query_of (rest : string) : string :=
  match rest with
  | String "?" q => fst (break ends_query q)
  | _ => EmptyString
  end.

Definition URL_basic (s : string) : option URL :=
  let (scheme, r1) := break is_colon s in
  if is_special_scheme (String_map to_lower scheme) then
    match r1 with
    | String ":" (String "/" (String "/" r2)) =>
        let (host, r3) := break ends_authority r2 in
        if negb (String.eqb host EmptyString) && String_forallb is_host_char host
        then
          let (path, r4) := break ends_path r3 in
          Some {| hostname := String_map to_lower host;
                  pathname := if String.eqb path EmptyString then "/" else path;
                  searchParams := parse_query (query_of r4) |}
        else None
    | _ => None
    end
  else None.

(** ** [Date.prototype.toISOString]

    The clock is read as milliseconds since the epoch; the calendar fields
    are those of the proleptic Gregorian calendar, UTC. *)

Definition digit (n : Z) : ascii :=
  nth (Z.to_nat (n mod 10))
    ["0"; "1"; "2"; "3"; "4"; "5"; "6"; "7"; "8"; "9"]%char "0"%char.

Definition digits2 (n : Z) : string :=
  String (digit (n / 10)) (String (digit n) EmptyString).

Definition digits3 (n : Z) : string :=
  String (digit (n / 100)) (digits2 n).

Definition digits4 (n : Z) : string :=
  String (digit (n / 1000)) (digits3 n).

Definition digits6 (n : Z) : string :=
  String (digit (n / 100000)) (String (digit (n / 10000)) (digits4 n)).

Definition msPerDay : Z := 86400000.

(** Year, month and day of the day numbered [day] from 1970-01-01. *)
Definition civil_from_days (day : Z) : Z * Z * Z :=
  let z := (day + 719468)%Z in
  let era := (z / 146097)%Z in
  let doe := (z - era * 146097)%Z in
  let yoe := ((doe - doe / 1460 + doe / 36524 - doe / 146096) / 365)%Z in
  let doy := (doe - (365 * yoe + yoe / 4 - yoe / 100))%Z in
  let mp := ((5 * doy + 2) / 153)%Z in
  let d := (doy - (153 * mp + 2) / 5 + 1)%Z in
  let m := (if (mp <? 10)%Z then mp + 3 else mp - 9)%Z in
  let y := (yoe + era * 400 + (if (m <=? 2)%Z then 1 else 0))%Z in
  (y, m, d).

Definition year_string (y : Z) : string :=
  if ((0 <=? y) && (y <=? 9999))%Z then digits4 y
  else String (if (y <? 0)%Z then "-" else "+")%char (digits6 (Z.abs y)).

Definition Date_toISOString (ms : Z) : string :=
  let day := (ms / msPerDay)%Z in
  let t := (ms mod msPerDay)%Z in
  let '(y, m, d) := civil_from_days day in
  year_string y ++ "-" ++ digits2 m ++ "-" ++ digits2 d ++ "T"
  ++ digits2 (t / 3600000) ++ ":" ++ digits2 (t / 60000 mod 60) ++ ":"
  ++ digits2 (t / 1000 mod 60) ++ "." ++ digits3 (t mod 1000) ++ "Z".

(** The shape of an ISO-8601 UTC date-time as [toISOString] writes it:
    [YYYY-MM-DDTHH:mm:ss.sssZ], the year possibly in the expanded form of a
    sign and six digits. *)
Fixpoint digits_then (n : nat) (k : string -> bool) (s : string) : bool :=
  match n with
  | O => k s
  | S n' =>
      match s with
      | String c r => is_digit c && digits_then n' k r
      | EmptyString => false
      end
  end.

Definition char_then (c : ascii) (k : string -> bool) (s : string) : bool :=
  match s with
  | String c' r => Ascii.eqb c' c && k r
  | EmptyString => false
  end.

Definition iso8601_tail : string -> bool :=
  char_then "-" (digits_then 2 (char_then "-" (digits_then 2 (char_then "T"
    (digits_then 2 (char_then ":" (digits_then 2 (char_then ":"
      (digits_then 2 (char_then "." (digits_then 3 (char_then "Z"
        (fun r => String.eqb r EmptyString))))))))))))).

Definition is_sign (c : ascii) : bool :=
  Ascii.eqb c "+"%char || Ascii.eqb c "-"%char.

Definition is_iso8601 (s : string) : bool :=
  match s with
  | String c r =>
      if is_sign c then digits_then 6 iso8601_tail r
      else digits_then 4 iso8601_tail s
  | EmptyString => false
  end.

(** ** Wire events *)

(** Inbound events, one constructor per [socket.on] registration, plus the
    connection itself. *)
Inductive Event : Type :=
| connection
| join_room (roomId : string) (user : RoomMember)
| leave_room (roomId : string) (user : RoomMember)
| sync_url (roomId : string) (url : string) (timestamp : option float)
| video_state_change (roomId : string) (isPlaying : bool) (timestamp : float)
| request_video_state (roomId : string)
| chat_message (roomId : string) (message : string) (user : RoomMember)
| disconnect.

(** Outbound events, named after the emitted event and carrying its
    payload.  ["video-state-updated"] is emitted with two payload shapes:
    the two reported fields (broadcast) or the stored [VideoState]
    (answer to ["request-video-state"]). *)
Inductive Payload : Type :=
| room_state (members : list RoomMember)
| member_joined (user : RoomMember)
| member_left (user : RoomMember)
| url_changed (url : string) (timestamp : float)
| video_state_updated (isPlaying : bool) (timestamp : float)
| video_state_updated_full (state : VideoState)
| new_message (user : RoomMember) (text : string) (timestamp : string).

(** One [emit]: the sockets it is delivered to and what they receive. *)
Record Emit : Type := {
  recipients : gset string;
  payload : Payload
}.

(** ** Server state

    [rooms] is the module-level [const rooms = new Map<string, RoomState>()];
    [adapter] is socket.io's registry of transport rooms: for each room
    name, the ids of the sockets that joined it. *)
Record Server : Type := {
  rooms : JsMap RoomState;
  adapter : gmap string (gset string)
}.

Definition initial : Server := {| rooms := []; adapter := ∅ |}.

(** *** socket.io operations *)

Definition sockets_in (a : gmap string (gset string)) (room : string)
  : gset string :=
  default ∅ (a !! room).

(** [socket.join(room)] *)
Definition socket_join (sid room : string) (a : gmap string (gset string))
  : gmap string (gset string) :=
  <[room := {[sid]} ∪ sockets_in a room]> a.

(** [socket.leave(room)] *)
Definition socket_leave (sid room : string) (a : gmap string (gset string))
  : gmap string (gset string) :=
  alter (λ s, s ∖ {[sid]}) room a.

(** A closing socket leaves every room before its ["disconnect"] handlers
    run. *)
Definition socket_leave_all (sid : string) (a : gmap string (gset string))
  : gmap string (gset string) :=
  (λ s, s ∖ {[sid]}) <$> a.

(** [socket.emit(...)]: to this socket only. *)
Definition to_self (sid : string) : gset string := {[sid]}.

(** [socket.to(room).emit(...)]: a broadcast to [room] that excepts the
    room named by the sender's id, so it reaches every socket in [room]
    that is not in the room [sid].  A socket is alone in the room of its id
    from its connection on, unless clients name such a room in
    ["join-room"] or ["leave-room"]. *)
Definition to_others (a : gmap string (gset string)) (sid room : string)
  : gset string :=
  sockets_in a room ∖ sockets_in a sid.

(** [io.to(room).emit(...)]: every socket in [room]. *)
Definition to_room (a : gmap string (gset string)) (room : string)
  : gset string :=
  sockets_in a room.

(** The members of a room as the directory has them; a room without an
    entry has none. *)
Definition members_of (roomId : string) (s : Server) : JsMap RoomMember :=
  match Map_get roomId (rooms s) with
  | Some room => members room
  | None => []
  end.

Definition with_members (room : RoomState) (ms : JsMap RoomMember) : RoomState :=
  {| members := ms; videoState := videoState room |}.

Definition with_videoState (room : RoomState) (vs : VideoState) : RoomState :=
  {| members := members room; videoState := Some vs |}.

Section Server.

(** [new URL(url)], [None] when it throws. *)
Variable URL_new : string -> option URL.

(** ** [convertToEmbedUrl] *)

Definition convertToEmbedUrl (url : string) : string :=
  match URL_new url with
  | Some urlObj =>
      let watch :=
        if String.eqb (hostname urlObj) "www.youtube.com"
           || String.eqb (hostname urlObj) "youtube.com"
        then
          match searchParams_get "v" (searchParams urlObj) with
          | Some videoId =>
              if String.eqb videoId EmptyString then None
              else Some (embed_prefix ++ videoId)
          | None => None
          end
        else None in
      match watch with
      | Some embed => embed
      | None =>
          if String.eqb (hostname urlObj) "youtu.be"
          then embed_prefix ++ slice1 (pathname urlObj)
          else url
      end
  | None => url
  end.

(** ** Event handlers

    Each handler takes the id of the socket it is registered on and the
    server state, and returns the new state with the emits it made. *)

(** [socket.on("join-room", ...)] *)
Definition on_join_room (sid roomId : string) (user : RoomMember) (s : Server)
  : Server * list Emit :=
  let a := socket_join sid roomId (adapter s) in
  let rs :=
    if negb (Map_has roomId (rooms s))
    then Map_set roomId {| members := []; videoState := None |} (rooms s)
    else rooms s in
  match Map_get roomId rs with
  | Some room =>
      let room := with_members room (Map_set (id user) user (members room)) in
      let members := Map_values (members room) in
      ({| rooms := Map_set roomId room rs; adapter := a |},
       [ {| recipients := to_self sid; payload := room_state members |};
         {| recipients := to_others a sid roomId;
            payload := member_joined user |} ])
  | None => ({| rooms := rs; adapter := a |}, [])
  end.

(** [socket.on("leave-room", ...)] *)
Definition on_leave_room (sid roomId : string) (user : RoomMember) (s : Server)
  : Server * list Emit :=
  let a := socket_leave sid roomId (adapter s) in
  match Map_get roomId (rooms s) with
  | Some room =>
      let room := with_members room (Map_delete (id user) (members room)) in
      let left := {| recipients := to_others a sid roomId;
                     payload := member_left user |} in
      if (Map_size (members room) =? 0)%nat
      then ({| rooms := Map_delete roomId (rooms s); adapter := a |}, [left])
      else
        let members := Map_values (members room) in
        ({| rooms := Map_set roomId room (rooms s); adapter := a |},
         [ left;
           {| recipients := to_room a roomId; payload := room_state members |} ])
  | None => ({| rooms := rooms s; adapter := a |}, [])
  end.

(** [socket.on("sync-url", ...)]; an absent [timestamp] defaults to 0. *)
Definition on_sync_url (sid roomId url : string) (timestamp : option float)
    (s : Server) : Server * list Emit :=
  let timestamp := default 0%float timestamp in
  let embedUrl := convertToEmbedUrl url in
  let rs :=
    match Map_get roomId (rooms s) with
    | Some room =>
        Map_set roomId
          (with_videoState room
             {| url := embedUrl; timestamp := timestamp; isPlaying := true |})
          (rooms s)
    | None => rooms s
    end in
  ({| rooms := rs; adapter := adapter s |},
   [ {| recipients := to_others (adapter s) sid roomId;
        payload := url_changed embedUrl timestamp |} ]).

(** [socket.on("video-state-change", ...)] *)
Definition on_video_state_change (sid roomId : string) (isPlaying : bool)
    (timestamp : float) (s : Server) : Server * list Emit :=
  let rs :=
    match Map_get roomId (rooms s) with
    | Some room =>
        match videoState room with
        | Some vs =>
            Map_set roomId
              (with_videoState room
                 {| url := url vs; timestamp := timestamp;
                    isPlaying := isPlaying |})
              (rooms s)
        | None => rooms s
        end
    | None => rooms s
    end in
  ({| rooms := rs; adapter := adapter s |},
   [ {| recipients := to_others (adapter s) sid roomId;
        payload := video_state_updated isPlaying timestamp |} ]).

(** [socket.on("request-video-state", ...)] *)
Definition on_request_video_state (sid roomId : string) (s : Server)
  : Server * list Emit :=
  match Map_get roomId (rooms s) with
  | Some room =>
      match videoState room with
      | Some vs =>
          (s, [ {| recipients := to_self sid;
                   payload := video_state_updated_full vs |} ])
      | None => (s, [])
      end
  | None => (s, [])
  end.

(** [socket.on("chat-message", ...)]; [now] is the clock read by
    [new Date()]. *)
Definition on_chat_message (now : Z) (sid roomId message : string)
    (user : RoomMember) (s : Server) : Server * list Emit :=
  (s, [ {| recipients := to_room (adapter s) roomId;
           payload := new_message user message (Date_toISOString now) |} ]).

(** The inner loop of the disconnect handler,
    [for (const [userId, user] of room.members.entries())], over the
    entries still to visit.  [ms] is the member map of the [room] object
    the outer loop holds; a deletion is written to the directory entry of
    [roomId], which is that same object for as long as the entry exists. *)
Fixpoint disconnect_members (sid roomId : string)
    (entries : list (string * RoomMember)) (room : RoomState)
    (s : Server) : Server * list Emit :=
  match entries with
  | [] => (s, [])
  | (userId, user) :: rest =>
      if String.eqb userId sid then
        let room := with_members room (Map_delete userId (members room)) in
        let left := {| recipients := to_others (adapter s) sid roomId;
                       payload := member_left user |} in
        let snapshot :=
          if (0 <? Map_size (members room))%nat
          then [ {| recipients := to_room (adapter s) roomId;
                    payload := room_state (Map_values (members room)) |} ]
          else [] in
        let rs :=
          if (Map_size (members room) =? 0)%nat
          then Map_delete roomId (rooms s)
          else if Map_has roomId (rooms s)
               then Map_set roomId room (rooms s)
               else rooms s in
        let (s', out) :=
          disconnect_members sid roomId rest room
            {| rooms := rs; adapter := adapter s |} in
        (s', (left :: snapshot ++ out)%list)
      else disconnect_members sid roomId rest room s
  end.

(** The outer loop, [for (const [roomId, room] of rooms.entries())], over
    the directory entries still to visit. *)
Fixpoint disconnect_rooms (sid : string) (entries : list (string * RoomState))
    (s : Server) : Server * list Emit :=
  match entries with
  | [] => (s, [])
  | (roomId, room) :: rest =>
      let (s1, out1) :=
        disconnect_members sid roomId (Map_entries (members room)) room s in
      let (s2, out2) := disconnect_rooms sid rest s1 in
      (s2, (out1 ++ out2)%list)
  end.

(** [socket.on("disconnect", ...)] *)
Definition on_disconnect (sid : string) (s : Server) : Server * list Emit :=
  disconnect_rooms sid (Map_entries (rooms s)) s.

(** ** The dispatcher

    One inbound event of socket [sid], handled at clock reading [now].
    A new socket joins the room named by its own id; a closing socket has
    left all its rooms when the disconnect handler runs. *)
Definition step (now : Z) (sid : string) (ev : Event) (s : Server)
  : Server * list Emit :=
  match ev with
  | connection =>
      ({| rooms := rooms s; adapter := socket_join sid sid (adapter s) |}, [])
  | join_room roomId user => on_join_room sid roomId user s
  | leave_room roomId user => on_leave_room sid roomId user s
  | sync_url roomId url timestamp => on_sync_url sid roomId url timestamp s
  | video_state_change roomId isPlaying timestamp =>
      on_video_state_change sid roomId isPlaying timestamp s
  | request_video_state roomId => on_request_video_state sid roomId s
  | chat_message roomId message user =>
      on_chat_message now sid roomId message user s
  | disconnect =>
      on_disconnect sid
        {| rooms := rooms s; adapter := socket_leave_all sid (adapter s) |}
  end.

(** A run of the server: the events in arrival order, each with its clock
    reading and socket; the result is the final state and every emit. *)
Fixpoint run (trace : list (Z * string * Event)) (s : Server)
  : Server * list Emit :=
  match trace with
  | [] => (s, [])
  | (now, sid, ev) :: rest =>
      let (s1, out1) := step now sid ev s in
      let (s2, out2) := run rest s1 in
      (s2, (out1 ++ out2)%list)
  end.

End Server.

(** ** Well-formed states

    A JavaScript [Map] holds each key once, and no handler leaves a room
    without members in the directory.  The association lists of a
    well-formed state have these two properties; every state the server
    can reach is well formed (see [run_wf]). *)

Definition wf_room (e : string * RoomState) : Prop :=
  NoDup (Map_keys (members e.2)) ∧ members e.2 ≠ [].

Definition wf_server (s : Server) : Prop :=
  NoDup (Map_keys (rooms s)) ∧ Forall wf_room (rooms s).

(** What the disconnect handler does to one directory entry: the entry
    that replaces it (none when the room is deleted) and the emits. *)
Definition disconnect_entry (sid : string) (a : gmap string (gset string))
    (e : string * RoomState) : list (string * RoomState) * list Emit :=
  match Map_get sid (members e.2) with
  | Some user =>
      let room := with_members e.2 (Map_delete sid (members e.2)) in
      ((if (Map_size (members room) =? 0)%nat then [] else [(e.1, room)]),
       {| recipients := to_others a sid e.1; payload := member_left user |}
       :: (if (0 <? Map_size (members room))%nat
           then [ {| recipients := to_room a e.1;
                     payload := room_state (Map_values (members room)) |} ]
           else []))
  | None => ([e], [])
  end.

(** An emit that, if it is a member-left event, announces a member stored
    under the key [sid] in one of the directory entries [entries], with
    [socket.to] on the room of that entry. *)
Definition left_to_others (a : gmap string (gset string)) (sid : string)
    (entries : list (string * RoomState)) (e : Emit) : Prop :=
  ∀ user, payload e = member_left user →
          ∃ roomId room,
            (roomId, room) ∈ entries
            ∧ (sid, user) ∈ members room
            ∧ recipients e = to_others a sid roomId.

(** The room and the member a leave-room or a disconnect event of socket
    [sid] announces as left: the room and the member the leave-room event
    names, if the room has an entry; for a disconnect, an entry of the
    directory and the member it stores under the key [sid]. *)
Definition announces_leave (sid : string) (ev : Event) (s : Server)
    (roomId : string) (user : RoomMember) : Prop :=
  match ev with
  | leave_room r u => r = roomId ∧ u = user ∧ Map_has roomId (rooms s) = true
  | disconnect => ∃ room, (roomId, room) ∈ rooms s ∧ (sid, user) ∈ members room
  | _ => False
  end.

(** ** Inputs of [convertToEmbedUrl]

    The two shapes the function rewrites, read off a parser. *)

Definition is_youtube_watch (URL_new : string → option URL) (url : string) : Prop :=
  ∃ urlObj videoId,
    URL_new url = Some urlObj
    ∧ (hostname urlObj = "www.youtube.com" ∨ hostname urlObj = "youtube.com")
    ∧ searchParams_get "v" (searchParams urlObj) = Some videoId
    ∧ videoId ≠ EmptyString.

Definition is_youtu_be (URL_new : string → option URL) (url : string) : Prop :=
  ∃ urlObj, URL_new url = Some urlObj ∧ hostname urlObj = "youtu.be".

(** The video id [convertToEmbedUrl] splices into the embed URL, when it
    rewrites its input. *)
Definition video_id (URL_new : string → option URL) (url : string)
  : option string :=
  match URL_new url with
  | Some urlObj =>
      let watch :=
        if String.eqb (hostname urlObj) "www.youtube.com"
           || String.eqb (hostname urlObj) "youtube.com"
        then
          match searchParams_get "v" (searchParams urlObj) with
          | Some videoId =>
              if String.eqb videoId EmptyString then None else Some videoId
          | None => None
          end
        else None in
      match watch with
      | Some videoId => Some videoId
      | None =>
          if String.eqb (hostname urlObj) "youtu.be"
          then Some (slice1 (pathname urlObj))
          else None
      end
  | None => None
  end.

(** A parser reads an embed URL built around an id free of [?] as a
    www.youtube.com URL without a [v] parameter (the id is all path and
    fragment).  The URL Standard's parser does; so does [URL_basic]. *)
Definition reads_embed_urls (URL_new : string → option URL) : Prop :=
  ∀ videoId urlObj,
    String_includes "?" videoId = false →
    URL_new (embed_prefix ++ videoId) = Some urlObj →
    hostname urlObj = "www.youtube.com"
    ∧ searchParams_get "v" (searchParams urlObj) = None.

(** ** Sample runs

    Three members with ids issued by the sign-in layer, as the watch page
    sends them ([id: session.user.id]), and the states reached when they
    join room ["abc"] from sockets ["sA"], ["sB"] and ["sC"]. *)

Definition alice : RoomMember :=
  {| id := "user-a"; name := "Alice"; image := None |}.

Definition bob : RoomMember :=
  {| id := "user-b"; name := "Bob"; image := None |}.

Definition carol : RoomMember :=
  {| id := "user-c"; name := "Carol"; image := None |}.

Definition one_joined : Server :=
  (run URL_basic
     [ (0%Z, "sA", connection); (0%Z, "sA", join_room "abc" alice) ]
     initial).1.

Definition two_joined : Server :=
  (run URL_basic
     [ (0%Z, "sA", connection); (0%Z, "sB", connection);
       (0%Z, "sA", join_room "abc" alice); (0%Z, "sB", join_room "abc" bob) ]
     initial).1.

(** As [two_joined], after Alice's socket reported a video. *)
Definition two_joined_playing : Server :=
  (step URL_basic 0 "sA"
     (sync_url "abc" "https://youtu.be/xyz" (Some 3.5%float)) two_joined).1.

(** As [two_joined], with a third socket connected that joined no room. *)
Definition two_joined_one_idle : Server :=
  (step URL_basic 0 "sC" connection two_joined).1.

(** ** Views on the state and on the events *)

(** The playback state of a room as the directory has it; a room without
    an entry has none. *)
Definition videoState_of (roomId : string) (s : Server) : option VideoState :=
  match Map_get roomId (rooms s) with
  | Some room => videoState room
  | None => None
  end.

(** The room an inbound event names in its [roomId] field. *)
Definition room_of (ev : Event) : option string :=
  match ev with
  | join_room roomId _ | leave_room roomId _ | sync_url roomId _ _
  | video_state_change roomId _ _ | request_video_state roomId
  | chat_message roomId _ _ => Some roomId
  | connection | disconnect => None
  end.

(** The events emitted with [socket.to(roomId)]: notifications of a change
    made by one socket to the others. *)
Definition is_notification (p : Payload) : bool :=
  match p with
  | member_joined _ | member_left _ | url_changed _ _
  | video_state_updated _ _ => true
  | room_state _ | video_state_updated_full _ | new_message _ _ _ => false
  end.

(** An emit of socket [sid]'s event on room [roomId] that stays within the
    room (and the sender), and reaches no socket in the room named [sid]
    if it is a notification. *)
Definition stays_in_room (a : gmap string (gset string)) (sid roomId : string)
    (e : Emit) : Prop :=
  recipients e ⊆ {[sid]} ∪ sockets_in a roomId
  ∧ (is_notification (payload e) = true →
     ∀ c, c ∈ sockets_in a sid → c ∉ recipients e).

(** Events by which socket [sid] enters the socket.io room [roomId]: its
    join-room naming it, and its connection if the room is named by its
    id.  Events by which it quits the room: its leave-room naming it and
    its disconnect. *)
Definition enters (sid roomId : string) (x : Z * string * Event) : bool :=
  String.eqb x.1.2 sid
  && match x.2 with
     | join_room r _ => String.eqb r roomId
     | connection => String.eqb sid roomId
     | _ => false
     end.

Definition quits (sid roomId : string) (x : Z * string * Event) : bool :=
  String.eqb x.1.2 sid
  && match x.2 with
     | leave_room r _ => String.eqb r roomId
     | disconnect => true
     | _ => false
     end.

(** The url of every stored playback state was sent in a url-changed event
    of [out]. *)
Definition playback_was_broadcast (s : Server) (out : list Emit) : Prop :=
  ∀ roomId vs,
    videoState_of roomId s = Some vs →
    ∃ e ts, e ∈ out ∧ payload e = url_changed (url vs) ts.

(** Events that read or write the playback state of room [roomId]. *)
Definition is_playback_event_on (roomId : string) (ev : Event) : bool :=
  match ev with
  | sync_url r _ _ | video_state_change r _ _ => String.eqb r roomId
  | _ => false
  end.

(** Events whose handler calls [socket.join] or [socket.leave] or writes a
    member map; the connection and the disconnect count as such. *)
Definition is_presence_event (ev : Event) : bool :=
  match ev with
  | connection | join_room _ _ | leave_room _ _ | disconnect => true
  | sync_url _ _ _ | video_state_change _ _ _ | request_video_state _
  | chat_message _ _ _ => false
  end.

(** Every member record is stored under its own [id]. *)
Definition keyed_by_id (s : Server) : Prop :=
  Forall (λ e : string * RoomState,
            Forall (λ kv : string * RoomMember, kv.1 = id kv.2) (members e.2))
    (rooms s).

(** ** The watch page's member list

    The page keeps [members] in React state and updates it from three
    socket events, with the updaters below ([setMembers((prev) => ...)]).
    [client_members c out view] is the list of a client on socket [c] that
    held [view] and then handled, in order, the emits of [out] delivered
    to [c]. *)

(** [onMemberJoin]: [setMembers((prev) => [...prev, member])] *)
Definition onMemberJoin (member : RoomMember) (prev : list RoomMember)
  : list RoomMember :=
  (prev ++ [member])%list.

(** [onMemberLeave]:
    [setMembers((prev) => prev.filter((m) => m.id !== member.id))] *)
Definition onMemberLeave (member : RoomMember) (prev : list RoomMember)
  : list RoomMember :=
  List.filter (λ m, negb (String.eqb (id m) (id member))) prev.

(** [onRoomState]: [setMembers(state.members)] *)
Definition onRoomState (members : list RoomMember) (prev : list RoomMember)
  : list RoomMember :=
  members.

Definition client_receive (p : Payload) (prev : list RoomMember)
  : list RoomMember :=
  match p with
  | room_state members => onRoomState members prev
  | member_joined member => onMemberJoin member prev
  | member_left member => onMemberLeave member prev
  | url_changed _ _ | video_state_updated _ _ | video_state_updated_full _
  | new_message _ _ _ => prev
  end.

Definition delivered_to (c : string) (out : list Emit) : list Payload :=
  payload <$> filter (λ e, c ∈ recipients e) out.

Definition client_members (c : string) (out : list Emit)
    (view : list RoomMember) : list RoomMember :=
  foldl (λ v p, client_receive p v) view (delivered_to c out).

(** ** The relay server

    The stand-alone socket server that precedes the one above: the same
    room directory and presence handlers, no playback state, and
    ["sync-url"] and ["video-state-change"] relayed as received.  It
    registers no ["request-video-state"] handler. *)

Module Relay.

Record RoomState : Type := {
  members : JsMap RoomMember
}.

Inductive Payload : Type :=
| room_state (members : list RoomMember)
| member_joined (user : RoomMember)
| member_left (user : RoomMember)
| url_changed (url : string) (timestamp : option float)
| video_state_updated (isPlaying : bool) (timestamp : float)
| new_message (user : RoomMember) (text : string) (timestamp : string).

Record Emit : Type := {
  recipients : gset string;
  payload : Payload
}.

Record Server : Type := {
  rooms : JsMap RoomState;
  adapter : gmap string (gset string)
}.

Definition initial : Server := {| rooms := []; adapter := ∅ |}.

Definition on_join_room (sid roomId : string) (user : RoomMember) (s : Server)
  : Server * list Emit :=
  let a := socket_join sid roomId (adapter s) in
  let rs :=
    if negb (Map_has roomId (rooms s))
    then Map_set roomId {| members := [] |} (rooms s)
    else rooms s in
  match Map_get roomId rs with
  | Some room =>
      let room := {| members := Map_set (id user) user (members room) |} in
      let members := Map_values (members room) in
      ({| rooms := Map_set roomId room rs; adapter := a |},
       [ {| recipients := to_self sid; payload := room_state members |};
         {| recipients := to_others a sid roomId;
            payload := member_joined user |} ])
  | None => ({| rooms := rs; adapter := a |}, [])
  end.

Definition on_leave_room (sid roomId : string) (user : RoomMember) (s : Server)
  : Server * list Emit :=
  let a := socket_leave sid roomId (adapter s) in
  match Map_get roomId (rooms s) with
  | Some room =>
      let room := {| members := Map_delete (id user) (members room) |} in
      let left := {| recipients := to_others a sid roomId;
                     payload := member_left user |} in
      if (Map_size (members room) =? 0)%nat
      then ({| rooms := Map_delete roomId (rooms s); adapter := a |}, [left])
      else
        let members := Map_values (members room) in
        ({| rooms := Map_set roomId room (rooms s); adapter := a |},
         [ left;
           {| recipients := to_room a roomId; payload := room_state members |} ])
  | None => ({| rooms := rooms s; adapter := a |}, [])
  end.

Definition on_sync_url (sid roomId url : string) (timestamp : option float)
    (s : Server) : Server * list Emit :=
  (s, [ {| recipients := to_others (adapter s) sid roomId;
           payload := url_changed url timestamp |} ]).

Definition on_video_state_change (sid roomId : string) (isPlaying : bool)
    (timestamp : float) (s : Server) : Server * list Emit :=
  (s, [ {| recipients := to_others (adapter s) sid roomId;
           payload := video_state_updated isPlaying timestamp |} ]).

Definition on_chat_message (now : Z) (sid roomId message : string)
    (user : RoomMember) (s : Server) : Server * list Emit :=
  (s, [ {| recipients := to_room (adapter s) roomId;
           payload := new_message user message (Date_toISOString now) |} ]).

Fixpoint disconnect_members (sid roomId : string)
    (entries : list (string * RoomMember)) (room : RoomState)
    (s : Server) : Server * list Emit :=
  match entries with
  | [] => (s, [])
  | (userId, user) :: rest =>
      if String.eqb userId sid then
        let room := {| members := Map_delete userId (members room) |} in
        let left := {| recipients := to_others (adapter s) sid roomId;
                       payload := member_left user |} in
        let snapshot :=
          if (0 <? Map_size (members room))%nat
          then [ {| recipients := to_room (adapter s) roomId;
                    payload := room_state (Map_values (members room)) |} ]
          else [] in
        let rs :=
          if (Map_size (members room) =? 0)%nat
          then Map_delete roomId (rooms s)
          else if Map_has roomId (rooms s)
               then Map_set roomId room (rooms s)
               else rooms s in
        let (s', out) :=
          disconnect_members sid roomId rest room
            {| rooms := rs; adapter := adapter s |} in
        (s', (left :: snapshot ++ out)%list)
      else disconnect_members sid roomId rest room s
  end.

Fixpoint disconnect_rooms (sid : string) (entries : list (string * RoomState))
    (s : Server) : Server * list Emit :=
  match entries with
  | [] => (s, [])
  | (roomId, room) :: rest =>
      let (s1, out1) :=
        disconnect_members sid roomId (Map_entries (members room)) room s in
      let (s2, out2) := disconnect_rooms sid rest s1 in
      (s2, (out1 ++ out2)%list)
  end.

Definition on_disconnect (sid : string) (s : Server) : Server * list Emit :=
  disconnect_rooms sid (Map_entries (rooms s)) s.

(** An event without a registered handler is dropped. *)
Definition step (now : Z) (sid : string) (ev : Event) (s : Server)
  : Server * list Emit :=
  match ev with
  | connection =>
      ({| rooms := rooms s; adapter := socket_join sid sid (adapter s) |}, [])
  | join_room roomId user => on_join_room sid roomId user s
  | leave_room roomId user => on_leave_room sid roomId user s
  | sync_url roomId url timestamp => on_sync_url sid roomId url timestamp s
  | video_state_change roomId isPlaying timestamp =>
      on_video_state_change sid roomId isPlaying timestamp s
  | request_video_state roomId => (s, [])
  | chat_message roomId message user =>
      on_chat_message now sid roomId message user s
  | disconnect =>
      on_disconnect sid
        {| rooms := rooms s; adapter := socket_leave_all sid (adapter s) |}
  end.

Fixpoint run (trace : list (Z * string * Event)) (s : Server)
  : Server * list Emit :=
  match trace with
  | [] => (s, [])
  | (now, sid, ev) :: rest =>
      let (s1, out1) := step now sid ev s in
      let (s2, out2) := run rest s1 in
      (s2, (out1 ++ out2)%list)
  end.

End Relay.

(** The relay server's view of a state of the full server: the playback
    states dropped. *)
Definition relay_room (e : string * RoomState) : string * Relay.RoomState :=
  (e.1, {| Relay.members := members e.2 |}).

Definition relay_state (s : Server) : Relay.Server :=
  {| Relay.rooms := relay_room <$> rooms s; Relay.adapter := adapter s |}.

(** What the full server sends where the relay server sends [p]: the url
    of a url-changed event in embed form, its position 0 when absent. *)
Definition upgrade_payload (URL_new : string → option URL) (p : Relay.Payload)
  : Payload :=
  match p with
  | Relay.room_state members => room_state members
  | Relay.member_joined user => member_joined user
  | Relay.member_left user => member_left user
  | Relay.url_changed url timestamp =>
      url_changed (convertToEmbedUrl URL_new url) (default 0%float timestamp)
  | Relay.video_state_updated isPlaying timestamp =>
      video_state_updated isPlaying timestamp
  | Relay.new_message user text timestamp => new_message user text timestamp
  end.

Definition upgrade_emit (URL_new : string → option URL) (e : Relay.Emit)
  : Emit :=
  {| recipients := Relay.recipients e;
     payload := upgrade_payload URL_new (Relay.payload e) |}.

(** The answer to a ["request-video-state"]. *)
Definition is_state_answer (e : Emit) : bool :=
  match payload e with
  | video_state_updated_full _ => true
  | _ => false
  end.

(** ** The first socket server ([initSocket])

    It keeps no state of its own: rooms are socket.io's.  A chat message
    is signed with the id of the sending socket. *)

Module InitSocket.

Inductive Event : Type :=
| connection
| join_room (roomId : string)
| leave_room (roomId : string)
| sync_url (roomId url : string)
| chat_message (roomId message : string)
| disconnect.

Inductive Payload : Type :=
| url_changed (url : string)
| new_message (user text timestamp : string).

Record Emit : Type := {
  recipients : gset string;
  payload : Payload
}.

Definition step (now : Z) (sid : string) (ev : Event)
    (a : gmap string (gset string))
  : gmap string (gset string) * list Emit :=
  match ev with
  | connection => (socket_join sid sid a, [])
  | join_room roomId => (socket_join sid roomId a, [])
  | leave_room roomId => (socket_leave sid roomId a, [])
  | sync_url roomId url =>
      (a, [ {| recipients := to_others a sid roomId;
               payload := url_changed url |} ])
  | chat_message roomId message =>
      (a, [ {| recipients := to_room a roomId;
               payload := new_message sid message (Date_toISOString now) |} ])
  | disconnect => (socket_leave_all sid a, [])
  end.

Fixpoint run (trace : list (Z * string * Event)) (a : gmap string (gset string))
  : gmap string (gset string) * list Emit :=
  match trace with
  | [] => (a, [])
  | (now, sid, ev) :: rest =>
      let (a1, out1) := step now sid ev a in
      let (a2, out2) := run rest a1 in
      (a2, (out1 ++ out2)%list)
  end.

End InitSocket.

(** The event of the first server that an event of the full server
    corresponds to: the same roomId, url and message, without the member
    record and the position; the first server has no handler for the two
    video-state events. *)
Definition to_initSocket (ev : Event) : option InitSocket.Event :=
  match ev with
  | connection => Some InitSocket.connection
  | join_room roomId _ => Some (InitSocket.join_room roomId)
  | leave_room roomId _ => Some (InitSocket.leave_room roomId)
  | sync_url roomId url _ => Some (InitSocket.sync_url roomId url)
  | chat_message roomId message _ =>
      Some (InitSocket.chat_message roomId message)
  | disconnect => Some InitSocket.disconnect
  | video_state_change _ _ _ | request_video_state _ => None
  end.

Definition to_initSocket_trace (trace : list (Z * string * Event))
  : list (Z * string * InitSocket.Event) :=
  omap (λ x, (λ ev, (x.1.1, x.1.2, ev)) <$> to_initSocket x.2) trace.

(** A chat message as delivered: to whom, with which text and time. *)
Definition chat_delivery (e : Emit) : option (gset string * string * string) :=
  match payload e with
  | new_message _ text timestamp => Some (recipients e, text, timestamp)
  | _ => None
  end.

Definition initSocket_chat_delivery (e : InitSocket.Emit)
  : option (gset string * string * string) :=
  match InitSocket.payload e with
  | InitSocket.new_message _ text timestamp =>
      Some (InitSocket.recipients e, text, timestamp)
  | InitSocket.url_changed _ => None
  end.

(** * Properties *)

Open Scope list_scope.

(** ** JavaScript [Map] laws *)

Section JsMapLaws.
Context {V : Type}.
Implicit Types (k : string) (v : V) (m : JsMap V).

Lemma Map_get_set_eq k v m : Map_get k (Map_set k v m) = Some v.
Proof.
  induction m as [|[k' v'] m IH]; simpl.
  - by rewrite String.eqb_refl.
  - destruct (String.eqb k' k) eqn:E; simpl.
    + by rewrite String.eqb_refl.
    + by rewrite E.
Qed.

Lemma Map_get_set_ne k k' v m :
  k ≠ k' → Map_get k' (Map_set k v m) = Map_get k' m.
Proof.
  intros Hne. induction m as [|[k0 v0] m IH]; simpl.
  - apply String.eqb_neq in Hne. by rewrite Hne.
  - destruct (String.eqb k0 k) eqn:E; simpl.
    + apply String.eqb_eq in E as ->.
      apply String.eqb_neq in Hne. by rewrite Hne.
    + by rewrite IH.
Qed.

Lemma Map_set_set k v v' m : Map_set k v' (Map_set k v m) = Map_set k v' m.
Proof.
  induction m as [|[k0 v0] m IH]; simpl.
  - by rewrite String.eqb_refl.
  - destruct (String.eqb k0 k) eqn:E; simpl.
    + by rewrite String.eqb_refl.
    + by rewrite E, IH.
Qed.

Lemma Map_set_nonempty k v m : Map_set k v m ≠ [].
Proof. destruct m as [|[k0 v0] m]; simpl; [done|]. by destruct (String.eqb k0 k). Qed.

Lemma Map_set_same k v m : Map_get k m = Some v → Map_set k v m = m.
Proof.
  induction m as [|[k0 v0] m IH]; simpl; [done|].
  destruct (String.eqb k0 k) eqn:E.
  - apply String.eqb_eq in E as ->. by intros [= ->].
  - intros H. by rewrite IH.
Qed.

Lemma Map_delete_absent k m : Map_get k m = None → Map_delete k m = m.
Proof.
  induction m as [|[k0 v0] m IH]; simpl; [done|].
  destruct (String.eqb k0 k); [done|]. intros H. by rewrite IH.
Qed.

Lemma Map_get_None_keys k m : Map_get k m = None ↔ k ∉ Map_keys m.
Proof.
  induction m as [|[k0 v0] m IH]; simpl.
  - split; [intros _; apply not_elem_of_nil | done].
  - rewrite not_elem_of_cons. destruct (String.eqb k0 k) eqn:E.
    + apply String.eqb_eq in E. subst k0. split; [done | by intros [? _]].
    + apply String.eqb_neq in E. rewrite IH. split; [by intros ?; split | by intros [_ ?]].
Qed.

Lemma Map_get_Some_elem k v m : Map_get k m = Some v → (k, v) ∈ m.
Proof.
  induction m as [|[k0 v0] m IH]; simpl; [done|].
  destruct (String.eqb k0 k) eqn:E.
  - apply String.eqb_eq in E as ->. intros [= ->]. left.
  - intros H. right. by apply IH.
Qed.

Lemma Map_elem_get k v m : NoDup (Map_keys m) → (k, v) ∈ m → Map_get k m = Some v.
Proof.
  induction m as [|[k0 v0] m IH]; simpl.
  - intros _ H. by apply elem_of_nil in H.
  - intros Hnd Hin. apply NoDup_cons in Hnd as [Hk0 Hnd].
    apply elem_of_cons in Hin as [Heq | Hin].
    + injection Heq as <- <-. by rewrite String.eqb_refl.
    + destruct (String.eqb k0 k) eqn:E.
      * apply String.eqb_eq in E as ->. exfalso. apply Hk0.
        unfold Map_keys. apply list_elem_of_fmap. by exists (k, v).
      * by apply IH.
Qed.

Lemma Map_keys_set k v m :
  Map_keys (Map_set k v m) = Map_keys m
  ∨ ((k ∉ Map_keys m) ∧ Map_keys (Map_set k v m) = (Map_keys m ++ [k])%list).
Proof.
  induction m as [|[k0 v0] m IH]; simpl.
  - right. split; [apply not_elem_of_nil | done].
  - destruct (String.eqb k0 k) eqn:E; simpl.
    + apply String.eqb_eq in E as ->. by left.
    + apply String.eqb_neq in E.
      destruct IH as [-> | [Hk ->]]; [by left | right].
      split; [|done]. rewrite not_elem_of_cons. naive_solver.
Qed.

Lemma Map_set_NoDup k v m : NoDup (Map_keys m) → NoDup (Map_keys (Map_set k v m)).
Proof.
  intros Hnd. destruct (Map_keys_set k v m) as [-> | [Hk ->]]; [done|].
  apply NoDup_app. split; [done|]. split.
  - intros x Hx [->|H]%elem_of_cons; [done | by apply elem_of_nil in H].
  - apply NoDup_singleton.
Qed.

Lemma Map_delete_sublist k m : Map_delete k m `sublist_of` m.
Proof.
  induction m as [|[k0 v0] m IH]; simpl; [done|].
  destruct (String.eqb k0 k).
  - by apply sublist_cons.
  - by apply sublist_skip.
Qed.

Lemma Map_delete_NoDup k m : NoDup (Map_keys m) → NoDup (Map_keys (Map_delete k m)).
Proof.
  intros Hnd. eapply sublist_NoDup; [exact Hnd|].
  unfold Map_keys. apply fmap_sublist, Map_delete_sublist.
Qed.

Lemma Map_delete_Forall (P : string * V → Prop) k m :
  Forall P m → Forall P (Map_delete k m).
Proof.
  rewrite !Forall_forall. intros Hm x Hx. apply Hm.
  eapply elem_of_sublist; [exact Hx | apply Map_delete_sublist].
Qed.

Lemma Map_set_Forall (P : string * V → Prop) k v m :
  P (k, v) → Forall P m → Forall P (Map_set k v m).
Proof.
  intros Hv. induction 1 as [|[k0 v0] m H0 Hm IH]; simpl.
  - by constructor.
  - destruct (String.eqb k0 k); by constructor.
Qed.

Lemma Map_values_set_elem k v m : v ∈ Map_values (Map_set k v m).
Proof.
  induction m as [|[k0 v0] m IH]; simpl; [left|].
  destruct (String.eqb k0 k); simpl; [left | by right].
Qed.

(** Deleting or replacing the entry of a key that occurs once, seen on the
    list split around it. *)
Lemma Map_delete_middle k v (pre post : JsMap V) :
  k ∉ Map_keys pre → Map_delete k (pre ++ (k, v) :: post)%list = (pre ++ post)%list.
Proof.
  induction pre as [|[k0 v0] pre IH]; simpl.
  - intros _. by rewrite String.eqb_refl.
  - intros [Hne Hk]%not_elem_of_cons.
    assert (String.eqb k0 k = false) as -> by (apply String.eqb_neq; congruence).
    by rewrite IH.
Qed.

Lemma Map_set_middle k v v' (pre post : JsMap V) :
  k ∉ Map_keys pre →
  Map_set k v' (pre ++ (k, v) :: post)%list = (pre ++ (k, v') :: post)%list.
Proof.
  induction pre as [|[k0 v0] pre IH]; simpl.
  - intros _. by rewrite String.eqb_refl.
  - intros [Hne Hk]%not_elem_of_cons.
    assert (String.eqb k0 k = false) as -> by (apply String.eqb_neq; congruence).
    by rewrite IH.
Qed.

Lemma Map_get_middle k v (pre post : JsMap V) :
  k ∉ Map_keys pre → Map_get k (pre ++ (k, v) :: post)%list = Some v.
Proof.
  induction pre as [|[k0 v0] pre IH]; simpl.
  - intros _. by rewrite String.eqb_refl.
  - intros [Hne Hk]%not_elem_of_cons.
    assert (String.eqb k0 k = false) as -> by (apply String.eqb_neq; congruence).
    by rewrite IH.
Qed.

Lemma Map_get_delete_ne k k' m :
  k ≠ k' → Map_get k' (Map_delete k m) = Map_get k' m.
Proof.
  intros Hne. induction m as [|[k0 v0] m IH]; simpl; [done|].
  destruct (String.eqb k0 k) eqn:E; simpl.
  - apply String.eqb_eq in E. subst k0.
    apply String.eqb_neq in Hne. by rewrite Hne.
  - by rewrite IH.
Qed.

Lemma Map_get_delete_eq k m :
  NoDup (Map_keys m) → Map_get k (Map_delete k m) = None.
Proof.
  intros Hnd. apply Map_get_None_keys.
  induction m as [|[k0 v0] m IH]; simpl; [apply not_elem_of_nil|].
  unfold Map_keys in Hnd. rewrite fmap_cons in Hnd.
  apply NoDup_cons in Hnd as [Hk0 Hnd].
  destruct (String.eqb k0 k) eqn:E.
  - apply String.eqb_eq in E. by subst k0.
  - apply String.eqb_neq in E. unfold Map_keys. rewrite fmap_cons.
    apply not_elem_of_cons. split; [done | by apply IH].
Qed.

End JsMapLaws.

(** ** socket.io room registry *)

Lemma sockets_in_join sid room r a :
  sockets_in (socket_join sid room a) r
  = if decide (room = r) then {[sid]} ∪ sockets_in a r else sockets_in a r.
Proof.
  unfold sockets_in, socket_join. rewrite lookup_insert.
  destruct (decide (room = r)); [by subst | done].
Qed.

Lemma sockets_in_leave sid room r a :
  sockets_in (socket_leave sid room a) r
  = if decide (room = r) then sockets_in a r ∖ {[sid]} else sockets_in a r.
Proof.
  unfold sockets_in, socket_leave. rewrite lookup_alter.
  destruct (decide (room = r)); [subst|done].
  destruct (a !! r); simpl; [done | by rewrite empty_difference_L].
Qed.

Lemma sockets_in_leave_all sid r a :
  sockets_in (socket_leave_all sid a) r = sockets_in a r ∖ {[sid]}.
Proof.
  unfold sockets_in, socket_leave_all. rewrite lookup_fmap.
  destruct (a !! r); simpl; [done | by rewrite empty_difference_L].
Qed.

(** [socket.to] reaches sockets of the room only, and never a socket that
    is in the room named by the sender's id. *)
Lemma to_others_subseteq a sid room : to_others a sid room ⊆ sockets_in a room.
Proof. unfold to_others. intros x. rewrite elem_of_difference. tauto. Qed.

Lemma to_others_excepted a sid room c :
  c ∈ sockets_in a sid → c ∉ to_others a sid room.
Proof. unfold to_others. rewrite elem_of_difference. tauto. Qed.

(** While the sender is alone in the room of its id, these are the other
    sockets of the room. *)
Lemma to_others_own_room a sid room :
  sockets_in a sid = {[sid]} → to_others a sid room = sockets_in a room ∖ {[sid]}.
Proof. unfold to_others. by intros ->. Qed.

Lemma not_in_left_room sid room a : sid ∉ sockets_in (socket_leave sid room a) room.
Proof.
  rewrite sockets_in_leave, decide_True by done.
  rewrite not_elem_of_difference. right. by apply elem_of_singleton.
Qed.

(** After [socket.leave(room)], and after the socket left all rooms,
    [socket.to(room)] reaches the sockets that were in the room, less the
    socket itself and those in the room of its id. *)
Lemma to_others_after_leave sid room a :
  to_others (socket_leave sid room a) sid room
  = sockets_in a room ∖ ({[sid]} ∪ sockets_in a sid).
Proof.
  unfold to_others. rewrite !sockets_in_leave. rewrite decide_True by done.
  apply set_eq. intros x.
  destruct (decide (room = sid)); rewrite !elem_of_difference, ?elem_of_union,
    ?elem_of_difference; tauto.
Qed.

Lemma to_others_after_leave_all sid room a :
  to_others (socket_leave_all sid a) sid room
  = sockets_in a room ∖ ({[sid]} ∪ sockets_in a sid).
Proof.
  unfold to_others. rewrite !sockets_in_leave_all.
  apply set_eq. intros x.
  rewrite !elem_of_difference, ?elem_of_union, ?elem_of_difference. tauto.
Qed.

(** ** The disconnect loops *)

Section Loops.
Implicit Types (sid roomId : string) (room : RoomState) (s : Server).

Lemma disconnect_members_absent sid roomId entries room s :
  sid ∉ Map_keys entries →
  disconnect_members sid roomId entries room s = (s, []).
Proof.
  induction entries as [|[userId user] entries IH]; simpl; [done|].
  intros [Hne Hk]%not_elem_of_cons.
  assert (String.eqb userId sid = false) as -> by (apply String.eqb_neq; congruence).
  by apply IH.
Qed.

Lemma Map_get_split {V : Type} (k : string) (v : V) (m : JsMap V) :
  NoDup (Map_keys m) → Map_get k m = Some v →
  ∃ pre post, m = (pre ++ (k, v) :: post)%list
              ∧ (k ∉ Map_keys pre) ∧ (k ∉ Map_keys post).
Proof.
  intros Hnd Hget. apply Map_get_Some_elem in Hget.
  apply list_elem_of_split in Hget as (pre & post & ->).
  exists pre, post. split; [done|].
  unfold Map_keys in *. rewrite fmap_app, fmap_cons in Hnd. simpl in Hnd.
  apply NoDup_app in Hnd as (_ & Hpre & Hpost).
  apply NoDup_cons in Hpost as [Hpost _].
  split; [|done]. intros Hin. apply (Hpre k Hin). left.
Qed.

Lemma disconnect_members_present sid roomId pre user post room s :
  sid ∉ Map_keys pre → sid ∉ Map_keys post →
  disconnect_members sid roomId (pre ++ (sid, user) :: post)%list room s =
    let room' := with_members room (Map_delete sid (members room)) in
    ({| rooms :=
          if (Map_size (members room') =? 0)%nat
          then Map_delete roomId (rooms s)
          else if Map_has roomId (rooms s)
               then Map_set roomId room' (rooms s)
               else rooms s;
        adapter := adapter s |},
     {| recipients := to_others (adapter s) sid roomId;
        payload := member_left user |}
     :: (if (0 <? Map_size (members room'))%nat
         then [ {| recipients := to_room (adapter s) roomId;
                   payload := room_state (Map_values (members room')) |} ]
         else [])).
Proof.
  intros Hpre Hpost. revert Hpre.
  induction pre as [|[k0 u0] pre IH]; simpl; intros Hpre.
  - rewrite String.eqb_refl. simpl.
    rewrite disconnect_members_absent by done.
    by rewrite app_nil_r.
  - apply not_elem_of_cons in Hpre as [Hne Hpre].
    assert (String.eqb k0 sid = false) as -> by (apply String.eqb_neq; congruence).
    by apply IH.
Qed.

(** The inner loop over the whole member map of a room: at most one
    entry matches, and only that one acts. *)
Lemma disconnect_members_spec sid roomId room s :
  NoDup (Map_keys (members room)) →
  disconnect_members sid roomId (Map_entries (members room)) room s =
    match Map_get sid (members room) with
    | Some user =>
        let room' := with_members room (Map_delete sid (members room)) in
        ({| rooms :=
              if (Map_size (members room') =? 0)%nat
              then Map_delete roomId (rooms s)
              else if Map_has roomId (rooms s)
                   then Map_set roomId room' (rooms s)
                   else rooms s;
            adapter := adapter s |},
         {| recipients := to_others (adapter s) sid roomId;
            payload := member_left user |}
         :: (if (0 <? Map_size (members room'))%nat
             then [ {| recipients := to_room (adapter s) roomId;
                       payload := room_state (Map_values (members room')) |} ]
             else []))
    | None => (s, [])
    end.
Proof.
  intros Hnd. unfold Map_entries.
  destruct (Map_get sid (members room)) as [user|] eqn:Hget.
  - destruct (Map_get_split _ _ _ Hnd Hget) as (pre & post & Hm & Hpre & Hpost).
    pose proof (disconnect_members_present sid roomId pre user post room s
                  Hpre Hpost) as H.
    rewrite <- Hm in H. exact H.
  - apply disconnect_members_absent. by apply Map_get_None_keys.
Qed.

(** The outer loop: [done] is the part of the directory already visited,
    [entries] the part still to visit. *)
Lemma disconnect_rooms_spec sid (done entries : JsMap RoomState) s :
  rooms s = (done ++ entries)%list →
  NoDup (Map_keys (done ++ entries)) →
  Forall (λ e, NoDup (Map_keys (members e.2))) entries →
  disconnect_rooms sid entries s =
    ({| rooms := (done ++ (entries ≫= λ e, (disconnect_entry sid (adapter s) e).1))%list;
        adapter := adapter s |},
     entries ≫= λ e, (disconnect_entry sid (adapter s) e).2).
Proof.
  revert done s.
  induction entries as [|[roomId room] rest IH]; intros done s Hs Hnd Hms.
  - simpl. destruct s as [rs a]. simpl in *. by subst.
  - apply Forall_cons in Hms as [Hroom Hms]. simpl in Hroom.
    assert (roomId ∉ Map_keys done) as Hfresh.
    { unfold Map_keys in *. rewrite fmap_app in Hnd.
      apply NoDup_app in Hnd as (_ & Hd & _).
      intros Hin. apply (Hd _ Hin). simpl. left. }
    cbn [disconnect_rooms]. rewrite disconnect_members_spec by done.
    cbn [mbind list_bind].
    set (R1 := rest ≫= λ e, (disconnect_entry sid (adapter s) e).1).
    set (R2 := rest ≫= λ e, (disconnect_entry sid (adapter s) e).2).
    unfold disconnect_entry. cbn [fst snd].
    destruct (Map_get sid (members room)) as [user|] eqn:Hget.
    + cbn zeta. cbn [members with_members fst snd].
      destruct (Map_size (Map_delete sid (members room)) =? 0)%nat eqn:Hsz.
      * rewrite Hs, Map_delete_middle by done.
        rewrite (IH done); [by cbn | by cbn | | done].
        cbn. unfold Map_keys in *. rewrite fmap_app in *. rewrite fmap_cons in Hnd.
        apply NoDup_app in Hnd as (H1 & H2 & H3). apply NoDup_cons in H3 as [_ H3].
        apply NoDup_app. split; [done|]. split; [|done].
        intros x Hx Hx'. apply (H2 x Hx). by right.
      * unfold Map_has. rewrite Hs, Map_get_middle, Map_set_middle by done.
        rewrite (IH (done ++ [(roomId, with_members room (Map_delete sid (members room)))])).
        -- cbn. by rewrite <- !app_assoc.
        -- cbn. by rewrite <- app_assoc.
        -- cbn. rewrite <- app_assoc. cbn.
           unfold Map_keys in *. by rewrite fmap_app, fmap_cons in *.
        -- done.
    + rewrite (IH (done ++ [(roomId, room)])).
      * cbn. by rewrite <- !app_assoc.
      * by rewrite <- app_assoc.
      * by rewrite <- app_assoc.
      * done.
Qed.

Lemma on_disconnect_spec sid s :
  wf_server s →
  on_disconnect sid s =
    ({| rooms := rooms s ≫= λ e, (disconnect_entry sid (adapter s) e).1;
        adapter := adapter s |},
     rooms s ≫= λ e, (disconnect_entry sid (adapter s) e).2).
Proof.
  intros [Hnd Hwf]. unfold on_disconnect, Map_entries.
  rewrite (disconnect_rooms_spec sid [] (rooms s) s); [done | done | done |].
  eapply Forall_impl; [exact Hwf|]. by intros e [? _].
Qed.

End Loops.

(** ** What each handler computes *)

Lemma on_join_room_spec sid roomId user s :
  on_join_room sid roomId user s =
    let a := socket_join sid roomId (adapter s) in
    let ms := Map_set (id user) user (members_of roomId s) in
    let vs := match Map_get roomId (rooms s) with
              | Some room => videoState room
              | None => None
              end in
    ({| rooms := Map_set roomId {| members := ms; videoState := vs |} (rooms s);
        adapter := a |},
     [ {| recipients := to_self sid; payload := room_state (Map_values ms) |};
       {| recipients := to_others a sid roomId; payload := member_joined user |} ]).
Proof.
  unfold on_join_room, members_of, Map_has.
  destruct (Map_get roomId (rooms s)) as [room|] eqn:Hget; cbn [negb].
  - by rewrite Hget.
  - by rewrite Map_get_set_eq, Map_set_set.
Qed.

Lemma on_join_room_members_of sid roomId user s :
  members_of roomId (on_join_room sid roomId user s).1
  = Map_set (id user) user (members_of roomId s).
Proof.
  rewrite on_join_room_spec. cbn zeta. cbn [fst].
  unfold members_of at 1. cbn [rooms]. by rewrite Map_get_set_eq.
Qed.

Lemma disconnect_entry_keys sid a (l : JsMap RoomState) k :
  k ∈ Map_keys (l ≫= λ e, (disconnect_entry sid a e).1) → k ∈ Map_keys l.
Proof.
  unfold Map_keys. induction l as [|e l IH]; [done|].
  cbn [mbind list_bind]. rewrite fmap_app, elem_of_app, fmap_cons, elem_of_cons.
  intros [Hk | Hk]; [left | right; by apply IH].
  unfold disconnect_entry in Hk.
  destruct (Map_get sid (members e.2)); cbn [fst] in Hk.
  - destruct (_ =? _)%nat; cbn in Hk.
    + by apply elem_of_nil in Hk.
    + by apply list_elem_of_singleton in Hk.
  - cbn in Hk. by apply list_elem_of_singleton in Hk.
Qed.

Lemma disconnect_entry_wf sid a e :
  wf_room e → Forall wf_room (disconnect_entry sid a e).1.
Proof.
  intros [Hnd Hne]. unfold disconnect_entry.
  destruct (Map_get sid (members e.2)); cbn [fst].
  - cbn [members with_members].
    destruct (Map_size (Map_delete sid (members e.2)) =? 0)%nat eqn:Hsz; [done|].
    apply Forall_singleton. split; cbn.
    + by apply Map_delete_NoDup.
    + intros Heq. rewrite Heq in Hsz. done.
  - by apply Forall_singleton.
Qed.

Lemma disconnect_entries_wf sid a (l : JsMap RoomState) :
  NoDup (Map_keys l) → Forall wf_room l →
  NoDup (Map_keys (l ≫= λ e, (disconnect_entry sid a e).1))
  ∧ Forall wf_room (l ≫= λ e, (disconnect_entry sid a e).1).
Proof.
  induction l as [|e l IH]; [done|].
  intros Hnd Hwf. unfold Map_keys in Hnd. rewrite fmap_cons in Hnd.
  apply NoDup_cons in Hnd as [He Hnd]. apply Forall_cons in Hwf as [Hwe Hwf].
  destruct (IH Hnd Hwf) as [IH1 IH2]. cbn [mbind list_bind]. split.
  - unfold Map_keys. rewrite fmap_app. apply NoDup_app. split; [|split; [|done]].
    + unfold disconnect_entry. destruct (Map_get sid (members e.2)); cbn [fst].
      * destruct (_ =? _)%nat; cbn; [apply NoDup_nil_2 | apply NoDup_singleton].
      * cbn. apply NoDup_singleton.
    + intros k Hk Hk'. apply disconnect_entry_keys in Hk'.
      assert (k = e.1) as ->; [|done].
      unfold disconnect_entry in Hk.
      destruct (Map_get sid (members e.2)); cbn [fst] in Hk.
      * destruct (_ =? _)%nat; cbn in Hk.
        -- by apply elem_of_nil in Hk.
        -- by apply list_elem_of_singleton in Hk.
      * cbn in Hk. by apply list_elem_of_singleton in Hk.
  - apply Forall_app. split; [by apply disconnect_entry_wf | done].
Qed.

(** ** Well-formedness is an invariant *)

Lemma wf_room_get roomId room s :
  wf_server s → Map_get roomId (rooms s) = Some room →
  NoDup (Map_keys (members room)) ∧ members room ≠ [].
Proof.
  intros [_ Hwf] Hget. apply Map_get_Some_elem in Hget.
  rewrite Forall_forall in Hwf. exact (Hwf _ Hget).
Qed.

Lemma members_of_NoDup roomId s :
  wf_server s → NoDup (Map_keys (members_of roomId s)).
Proof.
  intros Hwf. unfold members_of.
  destruct (Map_get roomId (rooms s)) as [room|] eqn:Hget.
  - by destruct (wf_room_get _ _ _ Hwf Hget).
  - apply NoDup_nil_2.
Qed.

Lemma wf_initial : wf_server initial.
Proof. split; [apply NoDup_nil_2 | apply Forall_nil_2]. Qed.

Section Invariant.
Variable URL_new : string → option URL.

Lemma step_wf now sid ev s :
  wf_server s → wf_server (step URL_new now sid ev s).1.
Proof.
  intros Hwf. pose proof Hwf as [Hnd Hrooms].
  destruct ev as [|roomId user|roomId user|roomId u ts|roomId playing ts
                  |roomId|roomId message user|]; cbn [step].
  - done.
  - rewrite on_join_room_spec. cbn. split; cbn.
    + by apply Map_set_NoDup.
    + apply Map_set_Forall; [|done]. split; cbn.
      * by apply Map_set_NoDup, members_of_NoDup.
      * apply Map_set_nonempty.
  - unfold on_leave_room.
    destruct (Map_get roomId (rooms s)) as [room|] eqn:Hget; [|done].
    destruct (wf_room_get _ _ _ Hwf Hget) as [Hms _].
    cbn [members with_members].
    destruct (Map_size (Map_delete (id user) (members room)) =? 0)%nat eqn:Hsz.
    + split; cbn; [by apply Map_delete_NoDup | by apply Map_delete_Forall].
    + split; cbn; [by apply Map_set_NoDup |].
      apply Map_set_Forall; [|done]. split; cbn.
      * by apply Map_delete_NoDup.
      * intros Heq. rewrite Heq in Hsz. done.
  - unfold on_sync_url.
    destruct (Map_get roomId (rooms s)) as [room|] eqn:Hget; [|done].
    split; cbn; [by apply Map_set_NoDup |].
    apply Map_set_Forall; [|done]. exact (wf_room_get _ _ _ Hwf Hget).
  - unfold on_video_state_change.
    destruct (Map_get roomId (rooms s)) as [room|] eqn:Hget; [|done].
    destruct (videoState room); [|done].
    split; cbn; [by apply Map_set_NoDup |].
    apply Map_set_Forall; [|done]. exact (wf_room_get _ _ _ Hwf Hget).
  - unfold on_request_video_state.
    destruct (Map_get roomId (rooms s)) as [room|]; [|done].
    by destruct (videoState room).
  - done.
  - rewrite on_disconnect_spec by done. cbn.
    by apply disconnect_entries_wf.
Qed.

Lemma run_wf trace s : wf_server s → wf_server (run URL_new trace s).1.
Proof.
  revert s. induction trace as [|[[now sid] ev] trace IH]; intros s Hwf; [done|].
  cbn [run]. pose proof (step_wf now sid ev s Hwf) as Hstep.
  destruct (step URL_new now sid ev s) as [s1 out1].
  specialize (IH s1 Hstep).
  by destruct (run URL_new trace s1) as [s2 out2].
Qed.

End Invariant.

(** ** Membership after a disconnect *)

Lemma disconnect_entries_get sid a roomId (l : JsMap RoomState) :
  NoDup (Map_keys l) →
  Map_get roomId (l ≫= λ e, (disconnect_entry sid a e).1) =
    match Map_get roomId l with
    | Some room =>
        match (disconnect_entry sid a (roomId, room)).1 with
        | e :: _ => Some e.2
        | [] => None
        end
    | None => None
    end.
Proof.
  induction l as [|[k room] l IH]; [done|].
  unfold Map_keys. rewrite fmap_cons. intros [Hk Hnd]%NoDup_cons.
  cbn [mbind list_bind Map_get fst].
  destruct (String.eqb k roomId) eqn:E.
  - apply String.eqb_eq in E. subst k.
    unfold disconnect_entry. cbn [fst snd].
    destruct (Map_get sid (members room)); cbn [fst].
    + destruct (_ =? _)%nat; cbn [app Map_get snd].
      * apply Map_get_None_keys. intros Hin. apply Hk.
        by apply disconnect_entry_keys in Hin.
      * by rewrite String.eqb_refl.
    + cbn. by rewrite String.eqb_refl.
  - rewrite <- (IH Hnd). unfold disconnect_entry at 1. cbn [fst snd].
    destruct (Map_get sid (members room)); cbn [fst].
    + destruct (_ =? _)%nat; cbn [app Map_get]; [done | by rewrite E].
    + cbn. by rewrite E.
Qed.

(** A disconnect removes from every room the member whose id is the id of
    the closed socket, and no other. *)
Lemma on_disconnect_members_of sid roomId s :
  wf_server s →
  members_of roomId (on_disconnect sid s).1 = Map_delete sid (members_of roomId s).
Proof.
  intros Hwf. rewrite on_disconnect_spec by done.
  unfold members_of. cbn [fst rooms].
  rewrite disconnect_entries_get by apply Hwf.
  destruct (Map_get roomId (rooms s)) as [room|]; [|done].
  unfold disconnect_entry. cbn [fst snd].
  destruct (Map_get sid (members room)) eqn:Hget; cbn [fst].
  - cbn [members with_members].
    destruct (Map_delete sid (members room)); [done|]. done.
  - cbn. symmetry. by apply Map_delete_absent.
Qed.

(** When no member is registered under the id of the closed socket, the
    disconnect handler changes nothing and emits nothing. *)
Lemma on_disconnect_no_such_member sid s :
  wf_server s →
  (∀ roomId, Map_get sid (members_of roomId s) = None) →
  on_disconnect sid s = (s, []).
Proof.
  intros Hwf Hnone. rewrite on_disconnect_spec by done.
  assert (∀ l : JsMap RoomState,
            (∀ e, e ∈ l → Map_get sid (members e.2) = None) →
            l ≫= (λ e, (disconnect_entry sid (adapter s) e).1) = l
            ∧ l ≫= (λ e, (disconnect_entry sid (adapter s) e).2) = []) as Hbind.
  { induction l as [|e l IH]; intros Hl; [done|].
    destruct IH as [IH1 IH2]; [intros e' He'; apply Hl; by right|].
    cbn [mbind list_bind]. rewrite IH1, IH2.
    unfold disconnect_entry. rewrite (Hl e) by left. done. }
  destruct (Hbind (rooms s)) as [-> ->]; [|by destruct s].
  intros [roomId room] He. cbn [snd].
  specialize (Hnone roomId). unfold members_of in Hnone.
  by rewrite (Map_elem_get _ _ _ (proj1 Hwf) He) in Hnone.
Qed.

Lemma on_disconnect_adapter sid s :
  wf_server s → adapter (on_disconnect sid s).1 = adapter s.
Proof. intros Hwf. by rewrite on_disconnect_spec. Qed.

Lemma on_disconnect_snapshot sid roomId room user s :
  wf_server s →
  Map_get roomId (rooms s) = Some room →
  Map_get sid (members room) = Some user →
  Map_delete sid (members room) ≠ [] →
  {| recipients := to_room (adapter s) roomId;
     payload := room_state (Map_values (Map_delete sid (members room))) |}
  ∈ (on_disconnect sid s).2.
Proof.
  intros Hwf Hroom Huser Hne. rewrite on_disconnect_spec by done. cbn [snd].
  apply list_elem_of_bind. exists (roomId, room).
  split; [|by apply Map_get_Some_elem].
  unfold disconnect_entry. cbn [fst snd]. rewrite Huser. cbn [snd members with_members].
  destruct (Map_delete sid (members room)); [done|]. cbn. right. left.
Qed.

(** ** The reference parser reads embed URLs *)

Lemma break_rest p s a b :
  break p s = (a, b) →
  s = (a ++ b)%string
  ∧ (b = EmptyString ∨ ∃ c b', b = String c b' ∧ p c = true).
Proof.
  revert a b. induction s as [|c s IH]; intros a b; simpl.
  - intros [= <- <-]. split; [done | by left].
  - destruct (p c) eqn:Hc.
    + intros [= <- <-]. split; [done | right; eauto].
    + destruct (break p s) as [a' b'] eqn:Hs. intros [= <- <-].
      destruct (IH a' b' eq_refl) as [-> Hb]. by split.
Qed.

Lemma String_includes_app c (a b : string) :
  String_includes c (a ++ b)%string = String_includes c a || String_includes c b.
Proof.
  induction a as [|c' a IH]; simpl; [done|]. by rewrite IH, orb_assoc.
Qed.

Lemma query_of_break_no_question (videoId path rest : string) :
  String_includes "?" videoId = false →
  break ends_path videoId = (path, rest) →
  query_of rest = EmptyString.
Proof.
  intros Hno Hbreak. apply break_rest in Hbreak as [-> Hrest].
  rewrite String_includes_app in Hno. apply orb_false_iff in Hno as [_ Hno].
  destruct Hrest as [-> | (c & b' & -> & Hc)]; [done|].
  simpl in Hno. apply orb_false_iff in Hno as [Hq _].
  unfold ends_path in Hc. rewrite Hq in Hc. simpl in Hc.
  apply Ascii.eqb_eq in Hc. by subst c.
Qed.

#[local] Arguments String.append !_ _ / : simpl nomatch.

Lemma URL_basic_reads_embed_urls : reads_embed_urls URL_basic.
Proof.
  intros videoId urlObj Hno. unfold URL_basic, embed_prefix.
  cbn -[query_of parse_query].
  destruct (break ends_path videoId) as [path rest] eqn:Hbreak.
  rewrite (query_of_break_no_question _ _ _ Hno Hbreak).
  vm_compute. intros [= <-]. by split.
Qed.

(** ** [toISOString] writes ISO-8601 *)

Lemma digit_forall (p : ascii → bool) n :
  forallb p ["0"; "1"; "2"; "3"; "4"; "5"; "6"; "7"; "8"; "9"]%char = true →
  p (digit n) = true.
Proof.
  intros H. unfold digit. generalize (Z.to_nat (n mod 10)). intros k.
  cbn in H.
  repeat match goal with
         | H : _ && _ = true |- _ => apply andb_prop in H as [? H]
         end.
  do 10 (destruct k as [|k]; [cbn; assumption|]). by destruct k.
Qed.

Lemma is_digit_digit n : is_digit (digit n) = true.
Proof. by apply digit_forall. Qed.

Lemma is_sign_digit n : is_sign (digit n) = false.
Proof.
  apply negb_true_iff. by apply (digit_forall (λ c, negb (is_sign c))).
Qed.

Lemma iso8601_tail_fields (m d h mi sec ms : Z) :
  iso8601_tail
    ("-" ++ digits2 m ++ "-" ++ digits2 d ++ "T" ++ digits2 h ++ ":"
     ++ digits2 mi ++ ":" ++ digits2 sec ++ "." ++ digits3 ms ++ "Z")%string
  = true.
Proof.
  unfold iso8601_tail, digits3, digits2. cbn -[digit].
  by rewrite !is_digit_digit.
Qed.

Lemma Date_toISOString_iso8601 ms : is_iso8601 (Date_toISOString ms) = true.
Proof.
  unfold Date_toISOString.
  destruct (civil_from_days (ms / msPerDay)) as [[y m] d].
  generalize (iso8601_tail_fields m d (ms mod msPerDay / 3600000)
                (ms mod msPerDay / 60000 mod 60) (ms mod msPerDay / 1000 mod 60)
                (ms mod msPerDay mod 1000)).
  generalize ("-" ++ digits2 m ++ "-" ++ digits2 d ++ "T"
              ++ digits2 (ms mod msPerDay / 3600000) ++ ":"
              ++ digits2 (ms mod msPerDay / 60000 mod 60) ++ ":"
              ++ digits2 (ms mod msPerDay / 1000 mod 60) ++ "."
              ++ digits3 (ms mod msPerDay mod 1000) ++ "Z")%string.
  intros tail Htail. unfold year_string.
  destruct ((0 <=? y)%Z && (y <=? 9999)%Z).
  - unfold digits4, digits3, digits2. cbn -[digit is_sign iso8601_tail].
    by rewrite is_sign_digit, !is_digit_digit, Htail.
  - unfold digits6, digits4, digits3, digits2. cbn -[digit is_sign iso8601_tail].
    assert (is_sign (if (y <? 0)%Z then "-" else "+")%char = true) as ->
      by by destruct (y <? 0)%Z.
    by rewrite !is_digit_digit, Htail.
Qed.

(** ** [convertToEmbedUrl] by cases *)

Section Convert.
Variable URL_new : string → option URL.

Lemma convertToEmbedUrl_video_id url :
  convertToEmbedUrl URL_new url =
    match video_id URL_new url with
    | Some videoId => (embed_prefix ++ videoId)%string
    | None => url
    end.
Proof.
  unfold convertToEmbedUrl, video_id.
  destruct (URL_new url) as [urlObj|]; [|done].
  destruct (String.eqb (hostname urlObj) "www.youtube.com"
            || String.eqb (hostname urlObj) "youtube.com").
  - destruct (searchParams_get "v" (searchParams urlObj)) as [videoId|].
    + destruct (String.eqb videoId EmptyString); [|done].
      by destruct (String.eqb (hostname urlObj) "youtu.be").
    + by destruct (String.eqb (hostname urlObj) "youtu.be").
  - by destruct (String.eqb (hostname urlObj) "youtu.be").
Qed.

Lemma video_id_Some url videoId :
  video_id URL_new url = Some videoId →
  is_youtube_watch URL_new url ∨ is_youtu_be URL_new url.
Proof.
  unfold video_id, is_youtube_watch, is_youtu_be.
  destruct (URL_new url) as [urlObj|]; [|done].
  destruct (String.eqb (hostname urlObj) "www.youtube.com"
            || String.eqb (hostname urlObj) "youtube.com") eqn:Hhost.
  - destruct (searchParams_get "v" (searchParams urlObj)) as [v|] eqn:Hv.
    + destruct (String.eqb v EmptyString) eqn:Hempty.
      * destruct (String.eqb (hostname urlObj) "youtu.be") eqn:Hbe; [|done].
        intros _. right. exists urlObj. split; [done|]. by apply String.eqb_eq.
      * intros _. left. exists urlObj, v. split; [done|].
        split; [|split; [done | by apply String.eqb_neq]].
        apply orb_true_iff in Hhost as [H|H]; apply String.eqb_eq in H; auto.
    + destruct (String.eqb (hostname urlObj) "youtu.be") eqn:Hbe; [|done].
      intros _. right. exists urlObj. split; [done|]. by apply String.eqb_eq.
  - destruct (String.eqb (hostname urlObj) "youtu.be") eqn:Hbe; [|done].
    intros _. right. exists urlObj. split; [done|]. by apply String.eqb_eq.
Qed.

Lemma convertToEmbedUrl_cases url :
  convertToEmbedUrl URL_new url = url
  ∨ is_youtube_watch URL_new url ∨ is_youtu_be URL_new url.
Proof.
  rewrite convertToEmbedUrl_video_id.
  destruct (video_id URL_new url) as [videoId|] eqn:Hid; [right | by left].
  by apply video_id_Some in Hid.
Qed.

(** The two rewritten shapes. *)
Lemma convertToEmbedUrl_of_watch url urlObj videoId :
  URL_new url = Some urlObj →
  hostname urlObj = "www.youtube.com" ∨ hostname urlObj = "youtube.com" →
  searchParams_get "v" (searchParams urlObj) = Some videoId →
  videoId ≠ EmptyString →
  convertToEmbedUrl URL_new url = (embed_prefix ++ videoId)%string.
Proof.
  intros Hparse Hhost Hv Hne. unfold convertToEmbedUrl. rewrite Hparse, Hv.
  apply String.eqb_neq in Hne. rewrite Hne.
  by destruct Hhost as [-> | ->].
Qed.

Lemma convertToEmbedUrl_of_short url urlObj :
  URL_new url = Some urlObj →
  hostname urlObj = "youtu.be" →
  convertToEmbedUrl URL_new url
  = (embed_prefix ++ slice1 (pathname urlObj))%string.
Proof.
  intros Hparse Hhost. unfold convertToEmbedUrl. by rewrite Hparse, Hhost.
Qed.

(** An embed URL built around an id free of [?] is left alone. *)
Lemma convertToEmbedUrl_embed videoId :
  reads_embed_urls URL_new →
  String_includes "?" videoId = false →
  convertToEmbedUrl URL_new (embed_prefix ++ videoId)%string
  = (embed_prefix ++ videoId)%string.
Proof.
  intros Hreads Hno. unfold convertToEmbedUrl.
  destruct (URL_new (embed_prefix ++ videoId)%string) as [urlObj|] eqn:Hparse; [|done].
  destruct (Hreads _ _ Hno Hparse) as [-> ->]. done.
Qed.

End Convert.

(** ** Emits of the disconnect handler *)

(** Every member-left event of the disconnect loops announces a member
    the visited entries store under the id of the closing socket, with
    [socket.to] on the room of the entry.  No assumption on the state is
    needed. *)

Lemma disconnect_members_emits sid roomId entries room s :
  adapter (disconnect_members sid roomId entries room s).1 = adapter s
  ∧ Forall (λ e, ∀ user, payload e = member_left user →
                   (sid, user) ∈ entries
                   ∧ recipients e = to_others (adapter s) sid roomId)
      (disconnect_members sid roomId entries room s).2.
Proof.
  revert room s. induction entries as [|[userId user] rest IH]; intros room s.
  - by split.
  - cbn [disconnect_members]. destruct (String.eqb userId sid) eqn:Hid.
    + apply String.eqb_eq in Hid as ->.
      match goal with
      | |- context [disconnect_members sid roomId rest ?room' ?s'] =>
          destruct (IH room' s') as [Ha Hout];
          destruct (disconnect_members sid roomId rest room' s') as [s2 out]
      end.
      cbn [fst snd adapter] in *. split; [done|].
      apply Forall_cons. split.
      { intros u Hu. cbn in Hu. injection Hu as <-. split; [left | done]. }
      apply Forall_app. split.
      * destruct (0 <? _)%nat; [|done]. by apply Forall_singleton.
      * eapply Forall_impl; [exact Hout|]. intros e He u Hu.
        destruct (He u Hu). split; [by right | done].
    + destruct (IH room s) as [Ha Hout]. split; [done|].
      eapply Forall_impl; [exact Hout|]. intros e He u Hu.
      destruct (He u Hu). split; [by right | done].
Qed.

Lemma disconnect_rooms_emits sid entries s :
  adapter (disconnect_rooms sid entries s).1 = adapter s
  ∧ Forall (left_to_others (adapter s) sid entries)
      (disconnect_rooms sid entries s).2.
Proof.
  revert s. induction entries as [|[roomId room] rest IH]; intros s.
  - by split.
  - cbn [disconnect_rooms].
    destruct (disconnect_members_emits sid roomId (Map_entries (members room)) room s)
      as [Ha1 Hout1].
    destruct (disconnect_members sid roomId (Map_entries (members room)) room s)
      as [s1 out1].
    destruct (IH s1) as [Ha2 Hout2].
    destruct (disconnect_rooms sid rest s1) as [s2 out2].
    cbn [fst snd] in *. split; [congruence|].
    apply Forall_app. split.
    + eapply Forall_impl; [exact Hout1|]. intros e He u Hu.
      destruct (He u Hu) as [Hin Hrec]. exists roomId, room.
      split; [left | done].
    + eapply Forall_impl; [exact Hout2|]. intros e He u Hu.
      destruct (He u Hu) as (r & rm & Hin & Hmem & Hrec). exists r, rm.
      split; [by right|]. split; [done|]. by rewrite <- Ha1.
Qed.

(** * The claims *)

Section Claims.
Variable URL_new : string → option URL.

(** ** Joining *)

(** C5: on every join-room event the handler sends exactly one room-state
    snapshot, to the joining socket alone, and that snapshot is the member
    list of the room as it is after the handler inserted the joiner: the
    joining member is in it.  The only other emit is the member-joined
    event, sent with [socket.to]: to the sockets of the room that are not
    in the room named by the joiner's socket id. *)
Theorem join_snapshot_has_joiner now sid roomId user s :
  let r := step URL_new now sid (join_room roomId user) s in
  r.2 = [ {| recipients := {[sid]};
             payload := room_state (Map_values (members_of roomId r.1)) |};
          {| recipients :=
               sockets_in (adapter r.1) roomId ∖ sockets_in (adapter r.1) sid;
             payload := member_joined user |} ]
  ∧ user ∈ Map_values (members_of roomId r.1).
Proof.
  cbn zeta. cbn [step]. rewrite on_join_room_members_of.
  rewrite on_join_room_spec. cbn zeta. cbn [fst snd adapter].
  split; [done | apply Map_values_set_elem].
Qed.

(** ** The directory invariant *)

(** C6: in every state the server reaches, after any sequence of inbound
    events, a room id has an entry in the rooms directory if and only if
    its membership is non-empty; and a join-room event always leaves the
    room it names in the directory. *)
Theorem room_listed_iff_has_members trace roomId :
  let s := (run URL_new trace initial).1 in
  (Map_has roomId (rooms s) = true ↔ members_of roomId s ≠ [])
  ∧ (∀ now sid user,
       Map_has roomId
         (rooms (step URL_new now sid (join_room roomId user) s).1) = true).
Proof.
  cbn zeta. pose proof (run_wf URL_new trace initial wf_initial) as Hwf.
  set (s := (run URL_new trace initial).1) in *. split.
  - unfold Map_has, members_of.
    destruct (Map_get roomId (rooms s)) as [room|] eqn:Hget.
    + split; [intros _ | done]. by destruct (wf_room_get _ _ _ Hwf Hget).
    + split; [done | by intros H].
  - intros now sid user. cbn [step]. rewrite on_join_room_spec.
    cbn zeta. cbn [fst rooms]. unfold Map_has. by rewrite Map_get_set_eq.
Qed.

(** ** Chat *)

(** C9: a chat-message event on room R makes the server emit a single
    new-message event, carrying the member and the text of the event and
    the server's clock reading written as an ISO-8601 string, to every
    socket in R; the sender is not excluded, so a sender that is in R
    receives its own message. *)
Theorem chat_message_reaches_whole_room now sid roomId message user s :
  let r := step URL_new now sid (chat_message roomId message user) s in
  r.1 = s
  ∧ r.2 = [ {| recipients := sockets_in (adapter s) roomId;
               payload := new_message user message (Date_toISOString now) |} ]
  ∧ is_iso8601 (Date_toISOString now) = true
  ∧ (∀ e, e ∈ r.2 → sid ∈ sockets_in (adapter s) roomId → sid ∈ recipients e).
Proof.
  cbn zeta. cbn [step on_chat_message fst snd].
  split; [done|]. split; [done|]. split.
  - apply Date_toISOString_iso8601.
  - intros e He Hin. apply list_elem_of_singleton in He. by subst e.
Qed.

(** ** Leaving *)

(** C4 (amended): a leave-room event naming a member id that is not in the
    named room's membership changes no membership and no directory entry,
    and nothing is sent to the caller; when the named room has no entry in
    the directory, nothing is sent at all. *)
Theorem leave_by_non_member_keeps_rooms now sid roomId user s :
  wf_server s →
  Map_get (id user) (members_of roomId s) = None →
  let r := step URL_new now sid (leave_room roomId user) s in
  rooms r.1 = rooms s
  ∧ Forall (λ e, sid ∉ recipients e) r.2
  ∧ (Map_get roomId (rooms s) = None → r.2 = []).
Proof.
  intros Hwf Habsent. cbn zeta. cbn [step]. unfold on_leave_room.
  unfold members_of in Habsent.
  destruct (Map_get roomId (rooms s)) as [room|] eqn:Hget; [|by split].
  destruct (wf_room_get _ _ _ Hwf Hget) as [_ Hne].
  cbn [members with_members]. rewrite (Map_delete_absent _ _ Habsent).
  destruct (members room) as [|m ms] eqn:Hms; [done|].
  cbn [Map_size length Nat.eqb fst snd rooms]. split; [|split; [|done]].
  - apply Map_set_same. rewrite Hget. f_equal. destruct room. cbn in *. by subst.
  - apply Forall_cons. split; [|apply Forall_singleton].
    + cbn. intros Hin. apply to_others_subseteq in Hin.
      by apply not_in_left_room in Hin.
    + cbn. unfold to_room. apply not_in_left_room.
Qed.

(** C8: a member-left event produced by a leave-room or a disconnect event
    is never delivered to the socket that sent the leave-room or that
    disconnected.  It announces the member and the room the event leaves,
    and goes to other sockets of that room only: to all of them but those
    in the room named by the departing socket's id, hence to all of them
    when no other socket is in that room. *)
Theorem member_left_skips_departing_socket now sid ev s e user :
  (ev = disconnect ∨ ∃ roomId u, ev = leave_room roomId u) →
  e ∈ (step URL_new now sid ev s).2 →
  payload e = member_left user →
  (sid ∉ recipients e)
  ∧ ∃ roomId,
      announces_leave sid ev s roomId user
      ∧ recipients e ⊆ sockets_in (adapter s) roomId ∖ {[sid]}
      ∧ recipients e
        = sockets_in (adapter s) roomId ∖ ({[sid]} ∪ sockets_in (adapter s) sid)
      ∧ (sockets_in (adapter s) sid ⊆ {[sid]} →
         recipients e = sockets_in (adapter s) roomId ∖ {[sid]}).
Proof.
  intros Hev He Hleft.
  assert (∃ roomId,
            announces_leave sid ev s roomId user
            ∧ recipients e
              = sockets_in (adapter s) roomId
                ∖ ({[sid]} ∪ sockets_in (adapter s) sid))
    as (roomId & Hroom & Hrec).
  { destruct Hev as [-> | (roomId & u & ->)]; cbn [step] in He.
    - unfold on_disconnect in He.
      match type of He with
      | _ ∈ (disconnect_rooms sid ?l ?s0).2 =>
          destruct (disconnect_rooms_emits sid l s0) as [_ Hout]
      end.
      rewrite Forall_forall in Hout.
      destruct (Hout e He user Hleft) as (roomId & room & Hin & Hmem & Hr).
      exists roomId. split; [by exists room|].
      rewrite Hr. cbn [adapter]. apply to_others_after_leave_all.
    - exists roomId. unfold on_leave_room in He.
      destruct (Map_get roomId (rooms s)) as [room|] eqn:Hget;
        [|cbn in He; by apply elem_of_nil in He].
      assert (e = {| recipients :=
                       to_others (socket_leave sid roomId (adapter s)) sid roomId;
                     payload := member_left u |}) as ->.
      { destruct (_ =? _)%nat; cbn [snd] in He.
        - by apply list_elem_of_singleton in He.
        - apply elem_of_cons in He as [-> | He]; [done|].
          apply list_elem_of_singleton in He. subst e. cbn in Hleft. done. }
      cbn in Hleft. injection Hleft as ->. split.
      + cbn. unfold Map_has. by rewrite Hget.
      + apply to_others_after_leave. }
  split; [|exists roomId; split; [done|]; split; [|split; [done|]]].
  - rewrite Hrec, not_elem_of_difference. right.
    apply elem_of_union. left. by apply elem_of_singleton.
  - rewrite Hrec. intros x. rewrite !elem_of_difference, elem_of_union. tauto.
  - intros Hown. rewrite Hrec. apply set_eq. intros x.
    rewrite !elem_of_difference, elem_of_union. specialize (Hown x). tauto.
Qed.

(** C7: whenever a leave-room or a disconnect event removes a member from
    a room and leaves the room non-empty, the server emits a room-state
    snapshot to every socket that is in the room after the event, all in
    one emit, so that all of them receive the same member list, and this
    list is the room's membership after the removal. *)
Theorem removal_resyncs_remaining_sockets now sid ev s roomId :
  wf_server s →
  (ev = disconnect ∨ ∃ r u, ev = leave_room r u) →
  let r := step URL_new now sid ev s in
  members_of roomId r.1 ≠ members_of roomId s →
  members_of roomId r.1 ≠ [] →
  {| recipients := sockets_in (adapter r.1) roomId;
     payload := room_state (Map_values (members_of roomId r.1)) |} ∈ r.2.
Proof.
  intros Hwf Hev. cbn zeta.
  destruct Hev as [-> | (r0 & u & ->)]; cbn [step].
  - set (s0 := {| rooms := rooms s; adapter := socket_leave_all sid (adapter s) |}).
    assert (wf_server s0) as Hwf0 by exact Hwf.
    rewrite on_disconnect_members_of, on_disconnect_adapter by done.
    change (members_of roomId s0) with (members_of roomId s).
    intros Hchanged Hne. unfold members_of in *.
    destruct (Map_get roomId (rooms s)) as [room|] eqn:Hget; [|done].
    destruct (Map_get sid (members room)) as [user|] eqn:Huser.
    + by apply (on_disconnect_snapshot sid roomId room user s0).
    + by rewrite Map_delete_absent in Hchanged.
  - unfold on_leave_room.
    destruct (decide (r0 = roomId)) as [->|Hr0].
    + unfold members_of at 1 2 3.
      destruct (Map_get roomId (rooms s)) as [room|] eqn:Hget;
        [|cbn [fst rooms]; by rewrite Hget].
      cbn [members with_members].
      destruct (Map_size (Map_delete (id u) (members room)) =? 0)%nat;
        cbn [fst snd rooms adapter].
      * rewrite Map_get_delete_eq by apply Hwf. done.
      * rewrite Map_get_set_eq. cbn [members]. intros _ _.
        unfold members_of. cbn [rooms]. rewrite Map_get_set_eq. cbn [members].
        right. left.
    + intros Hchanged. exfalso. apply Hchanged. unfold members_of.
      destruct (Map_get r0 (rooms s)) as [room|]; [|done].
      destruct (_ =? _)%nat; cbn [fst rooms].
      * by rewrite Map_get_delete_ne.
      * by rewrite Map_get_set_ne.
Qed.

(** ** Playback *)

(** C2 (amended): a sync-url event on room R makes the server emit a
    single url-changed event with [socket.to]: to every socket in R that is
    not in the room named by the sender's socket id, which are the sockets
    in R other than the sender while the sender is alone in that room.
    Its position is the reported one, unchanged (0 when the event carries
    none).  Its url is the reported url passed through [convertToEmbedUrl]:
    for a url that parses as a youtube.com or www.youtube.com URL with a
    non-empty [v] parameter, the embed URL of that parameter; for one that
    parses as a youtu.be URL, the embed URL of its path without the leading
    character; for any other, the reported url unchanged. *)
Theorem sync_url_broadcasts_embed_form now sid roomId url ts s :
  let r := step URL_new now sid (sync_url roomId url ts) s in
  r.2 = [ {| recipients :=
               sockets_in (adapter s) roomId ∖ sockets_in (adapter s) sid;
             payload := url_changed (convertToEmbedUrl URL_new url)
                          (default 0%float ts) |} ]
  ∧ (sockets_in (adapter s) sid = {[sid]} →
     r.2 = [ {| recipients := sockets_in (adapter s) roomId ∖ {[sid]};
                payload := url_changed (convertToEmbedUrl URL_new url)
                             (default 0%float ts) |} ])
  ∧ (∀ urlObj videoId,
       URL_new url = Some urlObj →
       hostname urlObj = "www.youtube.com" ∨ hostname urlObj = "youtube.com" →
       searchParams_get "v" (searchParams urlObj) = Some videoId →
       videoId ≠ EmptyString →
       convertToEmbedUrl URL_new url = (embed_prefix ++ videoId)%string)
  ∧ (∀ urlObj,
       URL_new url = Some urlObj →
       hostname urlObj = "youtu.be" →
       convertToEmbedUrl URL_new url
       = (embed_prefix ++ slice1 (pathname urlObj))%string)
  ∧ (¬ is_youtube_watch URL_new url → ¬ is_youtu_be URL_new url →
     convertToEmbedUrl URL_new url = url).
Proof.
  cbn zeta. cbn [step]. unfold on_sync_url. cbn [snd].
  split; [done|]. split; [|split; [|split]].
  - intros Hown. by rewrite (to_others_own_room _ _ _ Hown).
  - intros urlObj videoId. apply convertToEmbedUrl_of_watch.
  - intros urlObj. apply convertToEmbedUrl_of_short.
  - intros Hwatch Hbe.
    by destruct (convertToEmbedUrl_cases URL_new url) as [?|[?|?]].
Qed.

(** C3 (amended): a video-state-change event on room R always makes the
    server emit a video-state-updated event with the reported isPlaying
    and position, with [socket.to]: to every socket in R that is not in
    the room named by the sender's socket id, which are the sockets in R
    other than the sender while the sender is alone in that room.  When R
    has a playback state, its isPlaying and position are overwritten with
    the reported ones and its url is kept; when R has none (or R has no
    entry) the directory is left as it was: no playback state is
    created. *)
Theorem video_state_change_updates_existing now sid roomId playing ts s :
  let r := step URL_new now sid (video_state_change roomId playing ts) s in
  r.2 = [ {| recipients :=
               sockets_in (adapter s) roomId ∖ sockets_in (adapter s) sid;
             payload := video_state_updated playing ts |} ]
  ∧ (sockets_in (adapter s) sid = {[sid]} →
     r.2 = [ {| recipients := sockets_in (adapter s) roomId ∖ {[sid]};
                payload := video_state_updated playing ts |} ])
  ∧ match Map_get roomId (rooms s) with
    | Some room =>
        match videoState room with
        | Some vs =>
            Map_get roomId (rooms r.1)
            = Some {| members := members room;
                      videoState :=
                        Some {| url := url vs; timestamp := ts;
                                isPlaying := playing |} |}
        | None => rooms r.1 = rooms s
        end
    | None => rooms r.1 = rooms s
    end.
Proof.
  cbn zeta. cbn [step]. unfold on_video_state_change. cbn [fst snd].
  split; [done|]. split.
  { intros Hown. by rewrite (to_others_own_room _ _ _ Hown). }
  destruct (Map_get roomId (rooms s)) as [room|]; [|done].
  destruct (videoState room) as [vs|]; [|done].
  cbn [rooms]. by rewrite Map_get_set_eq.
Qed.

(** ** URL rewriting *)

(** C10 (amended): [convertToEmbedUrl] is the identity on every input that
    is neither a youtube.com URL with a non-empty [v] parameter nor a
    youtu.be URL (strings that do not parse and embed URLs without a [v]
    parameter among them), and applying it twice equals applying it once
    on every input whose video id contains no [?]. *)
Theorem convertToEmbedUrl_idempotent_on_plain_ids url :
  reads_embed_urls URL_new →
  (¬ is_youtube_watch URL_new url → ¬ is_youtu_be URL_new url →
   convertToEmbedUrl URL_new url = url)
  ∧ (match video_id URL_new url with
     | Some videoId => String_includes "?" videoId = false
     | None => True
     end →
     convertToEmbedUrl URL_new (convertToEmbedUrl URL_new url)
     = convertToEmbedUrl URL_new url).
Proof.
  intros Hreads. split.
  - intros Hwatch Hbe. by destruct (convertToEmbedUrl_cases URL_new url) as [?|[?|?]].
  - intros Hplain. rewrite (convertToEmbedUrl_video_id URL_new url).
    destruct (video_id URL_new url) as [videoId|] eqn:Hid.
    + by apply convertToEmbedUrl_embed.
    + rewrite convertToEmbedUrl_video_id. by rewrite Hid.
Qed.

End Claims.

(** * The handlers on the sample runs *)

Example URL_basic_watch :
  URL_basic "https://www.youtube.com/watch?v=dQw4w9WgXcQ&t=42#top"
  = Some {| hostname := "www.youtube.com"; pathname := "/watch";
            searchParams := [("v", "dQw4w9WgXcQ"); ("t", "42")] |}.
Proof. vm_compute. reflexivity. Qed.

Example URL_basic_short : URL_basic "HTTPS://YouTu.be/dQw4w9WgXcQ"
  = Some {| hostname := "youtu.be"; pathname := "/dQw4w9WgXcQ";
            searchParams := [] |}.
Proof. vm_compute. reflexivity. Qed.

Example URL_basic_throws : URL_basic "not a url" = None.
Proof. vm_compute. reflexivity. Qed.

Example convertToEmbedUrl_watch :
  convertToEmbedUrl URL_basic "https://youtube.com/watch?v=dQw4w9WgXcQ"
  = "https://www.youtube.com/embed/dQw4w9WgXcQ".
Proof. vm_compute. reflexivity. Qed.

Example Date_toISOString_epoch :
  Date_toISOString 0 = "1970-01-01T00:00:00.000Z".
Proof. vm_compute. reflexivity. Qed.

Example Date_toISOString_leap_day :
  Date_toISOString 1709251199999 = "2024-02-29T23:59:59.999Z".
Proof. vm_compute. reflexivity. Qed.

Example Date_toISOString_before_epoch :
  Date_toISOString (-1) = "1969-12-31T23:59:59.999Z".
Proof. vm_compute. reflexivity. Qed.

Example Date_toISOString_expanded_year :
  Date_toISOString 8640000000000000 = "+275760-09-13T00:00:00.000Z".
Proof. vm_compute. reflexivity. Qed.

(** The scenario of the two sockets: what each emit of the run carries and
    whom it reaches. *)
Example two_joined_emits :
  (run URL_basic
     [ (0%Z, "sA", connection); (0%Z, "sB", connection);
       (0%Z, "sA", join_room "abc" alice); (0%Z, "sB", join_room "abc" bob);
       (0%Z, "sA", sync_url "abc" "http://x" (Some 0%float)) ]
     initial).2
  = [ {| recipients := {[ "sA" ]}; payload := room_state [alice] |};
      {| recipients := ∅; payload := member_joined alice |};
      {| recipients := {[ "sB" ]}; payload := room_state [alice; bob] |};
      {| recipients := {[ "sA" ]}; payload := member_joined bob |};
      {| recipients := {[ "sB" ]}; payload := url_changed "http://x" 0%float |} ].
Proof. vm_compute. reflexivity. Qed.

Lemma two_joined_wf : wf_server two_joined.
Proof. unfold two_joined. apply run_wf, wf_initial. Qed.

Lemma two_joined_one_idle_wf : wf_server two_joined_one_idle.
Proof. unfold two_joined_one_idle. apply step_wf, two_joined_wf. Qed.

(** C1: the disconnect handler looks for a member whose id is the id of
    the closed socket.  Alice and Bob joined room ["abc"] under the ids of
    their accounts; when Bob's socket closes nothing is emitted, and Bob
    stays in the membership of the room although his socket has left it. *)
Theorem disconnect_leaves_member_behind :
  let r := step URL_basic 0 "sB" disconnect two_joined in
  r.2 = []
  ∧ members_of "abc" r.1 = [("user-a", alice); ("user-b", bob)]
  ∧ sockets_in (adapter r.1) "abc" = {[ "sA" ]}.
Proof. vm_compute. by repeat split. Qed.

(** The same handler does remove a member that joined under the id of its
    socket. *)
Example disconnect_removes_socket_named_member :
  let dave := {| id := "sB"; name := "Dave"; image := None |} in
  let s := (run URL_basic
              [ (0%Z, "sA", connection); (0%Z, "sB", connection);
                (0%Z, "sA", join_room "abc" alice);
                (0%Z, "sB", join_room "abc" dave) ] initial).1 in
  let r := step URL_basic 0 "sB" disconnect s in
  members_of "abc" r.1 = [("user-a", alice)]
  ∧ r.2 = [ {| recipients := {[ "sA" ]}; payload := member_left dave |};
            {| recipients := {[ "sA" ]}; payload := room_state [alice] |} ].
Proof. vm_compute. by split. Qed.

(** Counterexample to C2 as stated: the url that reaches the other socket
    is not the reported one. *)
Lemma sync_url_rewrites_youtu_be_link :
  (step URL_basic 0 "sA"
     (sync_url "abc" "https://youtu.be/xyz" (Some 3.5%float)) two_joined).2
  = [ {| recipients := {[ "sB" ]};
         payload := url_changed "https://www.youtube.com/embed/xyz" 3.5%float |} ]
  ∧ "https://www.youtube.com/embed/xyz" ≠ "https://youtu.be/xyz".
Proof. split; [vm_compute; reflexivity | discriminate]. Qed.

(** Counterexample to C3 as stated: a room without playback state has none
    after a video-state-change event either. *)
Lemma video_state_change_creates_no_state :
  Map_get "abc" (rooms one_joined)
  = Some {| members := [("user-a", alice)]; videoState := None |}
  ∧ Map_get "abc"
      (rooms (step URL_basic 0 "sA"
                (video_state_change "abc" true 12.5%float) one_joined).1)
    = Some {| members := [("user-a", alice)]; videoState := None |}.
Proof. split; vm_compute; reflexivity. Qed.

(** Counterexample to C4 as stated: Carol is not a member of room ["abc"],
    yet her leave-room event is announced to its two sockets, followed by
    a snapshot. *)
Lemma leave_by_non_member_is_broadcast :
  Map_get (id carol) (members_of "abc" two_joined_one_idle) = None
  ∧ (step URL_basic 0 "sC" (leave_room "abc" carol) two_joined_one_idle).2
    = [ {| recipients := {[ "sA"; "sB" ]}; payload := member_left carol |};
        {| recipients := {[ "sA"; "sB" ]};
           payload := room_state [alice; bob] |} ].
Proof. split; vm_compute; reflexivity. Qed.

(** Counterexample to C10 as stated: a [v] parameter whose value contains
    a [?] gives an embed URL that is rewritten again. *)
Lemma convertToEmbedUrl_not_idempotent :
  convertToEmbedUrl URL_basic "https://www.youtube.com/watch?v=a?v=b"
  = "https://www.youtube.com/embed/a?v=b"
  ∧ convertToEmbedUrl URL_basic
      (convertToEmbedUrl URL_basic "https://www.youtube.com/watch?v=a?v=b")
    = "https://www.youtube.com/embed/b".
Proof. split; vm_compute; reflexivity. Qed.

(** ** The theorems at concrete inputs *)

Lemma leave_by_non_member_keeps_rooms_witness :
  wf_server two_joined_one_idle
  ∧ Map_get (id carol) (members_of "abc" two_joined_one_idle) = None
  ∧ rooms (step URL_basic 0 "sC" (leave_room "abc" carol)
             two_joined_one_idle).1
    = rooms two_joined_one_idle.
Proof.
  assert (Habsent : Map_get (id carol) (members_of "abc" two_joined_one_idle)
                    = None) by (vm_compute; reflexivity).
  split; [exact two_joined_one_idle_wf|]. split; [exact Habsent|].
  exact (proj1 (leave_by_non_member_keeps_rooms URL_basic 0 "sC" "abc" carol
                  two_joined_one_idle two_joined_one_idle_wf Habsent)).
Defined.

Lemma member_left_skips_departing_socket_witness :
  {| recipients := {[ "sA" ]}; payload := member_left bob |}
  ∈ (step URL_basic 0 "sB" (leave_room "abc" bob) two_joined).2
  ∧ "sB" ∉ ({[ "sA" ]} : gset string).
Proof.
  assert (Hin : {| recipients := {[ "sA" ]}; payload := member_left bob |}
                ∈ (step URL_basic 0 "sB" (leave_room "abc" bob) two_joined).2).
  { vm_compute. apply list_elem_of_here. }
  split; [exact Hin|].
  exact (proj1 (member_left_skips_departing_socket URL_basic 0 "sB"
                  (leave_room "abc" bob) two_joined _ bob
                  (or_intror (ex_intro _ "abc" (ex_intro _ bob eq_refl)))
                  Hin eq_refl)).
Defined.

Lemma removal_resyncs_remaining_sockets_witness :
  wf_server two_joined
  ∧ {| recipients := {[ "sA" ]}; payload := room_state [alice] |}
    ∈ (step URL_basic 0 "sB" (leave_room "abc" bob) two_joined).2.
Proof.
  split; [exact two_joined_wf|].
  assert (H := removal_resyncs_remaining_sockets URL_basic 0 "sB"
                 (leave_room "abc" bob) two_joined "abc" two_joined_wf
                 (or_intror (ex_intro _ "abc" (ex_intro _ bob eq_refl)))).
  cbn zeta in H.
  assert (Hchanged : members_of "abc"
                       (step URL_basic 0 "sB" (leave_room "abc" bob) two_joined).1
                     ≠ members_of "abc" two_joined)
    by (vm_compute; discriminate).
  assert (Hne : members_of "abc"
                  (step URL_basic 0 "sB" (leave_room "abc" bob) two_joined).1
                ≠ []) by (vm_compute; discriminate).
  specialize (H Hchanged Hne). vm_compute in H. vm_compute. exact H.
Defined.

Lemma convertToEmbedUrl_idempotent_on_plain_ids_witness :
  convertToEmbedUrl URL_basic "https://example.com/watch?v=abc"
  = "https://example.com/watch?v=abc"
  ∧ convertToEmbedUrl URL_basic
      (convertToEmbedUrl URL_basic "https://youtube.com/watch?v=abc")
    = convertToEmbedUrl URL_basic "https://youtube.com/watch?v=abc".
Proof.
  split.
  - apply (proj1 (convertToEmbedUrl_idempotent_on_plain_ids URL_basic
                    "https://example.com/watch?v=abc"
                    URL_basic_reads_embed_urls)).
    + intros (urlObj & videoId & Hparse & Hhost & _).
      vm_compute in Hparse. injection Hparse as <-.
      destruct Hhost as [Hhost|Hhost]; discriminate Hhost.
    + intros (urlObj & Hparse & Hhost).
      vm_compute in Hparse. injection Hparse as <-. discriminate Hhost.
  - apply (proj2 (convertToEmbedUrl_idempotent_on_plain_ids URL_basic
                    "https://youtube.com/watch?v=abc"
                    URL_basic_reads_embed_urls)).
    vm_compute. reflexivity.
Defined.

Lemma sync_url_broadcasts_embed_form_witness :
  sockets_in (adapter two_joined) "sA" = {[ "sA" ]}
  ∧ (step URL_basic 0 "sA"
       (sync_url "abc" "https://youtu.be/xyz" None) two_joined).2
    = [ {| recipients := sockets_in (adapter two_joined) "abc" ∖ {[ "sA" ]};
           payload :=
             url_changed (convertToEmbedUrl URL_basic "https://youtu.be/xyz")
               0%float |} ].
Proof.
  assert (Hown : sockets_in (adapter two_joined) "sA" = {[ "sA" ]})
    by (vm_compute; reflexivity).
  split; [exact Hown|].
  exact (proj1 (proj2 (sync_url_broadcasts_embed_form URL_basic 0 "sA" "abc"
                         "https://youtu.be/xyz" None two_joined)) Hown).
Defined.

Lemma video_state_change_updates_existing_witness :
  sockets_in (adapter two_joined_playing) "sB" = {[ "sB" ]}
  ∧ (step URL_basic 0 "sB"
       (video_state_change "abc" false 7.25%float) two_joined_playing).2
    = [ {| recipients :=
             sockets_in (adapter two_joined_playing) "abc" ∖ {[ "sB" ]};
           payload := video_state_updated false 7.25%float |} ].
Proof.
  assert (Hown : sockets_in (adapter two_joined_playing) "sB" = {[ "sB" ]})
    by (vm_compute; reflexivity).
  split; [exact Hown|].
  exact (proj1 (proj2 (video_state_change_updates_existing URL_basic 0 "sB"
                         "abc" false 7.25%float two_joined_playing)) Hown).
Defined.

(** ** [socket.to] and rooms named by a socket id

    Room ids come from the clients.  When one names a room by a socket
    id, the sockets [socket.to] excepts are no longer the sender alone:
    after Alice's socket left the room ["sA"], its own url-changed event
    is sent back to it; after Bob's socket joined the room ["sA"], a
    url-changed event of Alice's socket no longer reaches it. *)
Example socket_to_excepts_id_named_room :
  (step URL_basic 2 "sA" (sync_url "abc" "http://x" None)
     (step URL_basic 1 "sA" (leave_room "sA" alice) two_joined).1).2
  = [ {| recipients := {[ "sA"; "sB" ]};
         payload := url_changed "http://x" 0%float |} ]
  ∧ (step URL_basic 2 "sA" (sync_url "abc" "http://x" None)
       (step URL_basic 1 "sB" (join_room "sA" bob) two_joined).1).2
    = [ {| recipients := ∅; payload := url_changed "http://x" 0%float |} ].
Proof. split; vm_compute; reflexivity. Qed.

(** A page whose socket left the room of its id receives its own
    member-joined event after the snapshot, and lists itself twice. *)
Example joiner_outside_own_room_listed_twice :
  let s := (step URL_basic 1 "sC" (leave_room "sC" carol)
              two_joined_one_idle).1 in
  let r := step URL_basic 2 "sC" (join_room "abc" carol) s in
  Map_values (members_of "abc" r.1) = [alice; bob; carol]
  ∧ client_members "sC" r.2 [] = [alice; bob; carol; carol].
Proof. split; vm_compute; reflexivity. Qed.

(** * Further properties of the handlers *)

(** ** More [Map] laws *)

Section JsMapMore.
Context {V : Type}.
Implicit Types (k : string) (v : V) (m : JsMap V).

Lemma Map_set_new k v m : Map_get k m = None → Map_set k v m = m ++ [(k, v)].
Proof.
  induction m as [|[k0 v0] m IH]; simpl; [done|].
  destruct (String.eqb k0 k); [done|]. intros H. by rewrite IH.
Qed.

Lemma Map_size_set k v m :
  Map_size (Map_set k v m)
  = if Map_has k m then Map_size m else S (Map_size m).
Proof.
  unfold Map_has, Map_size. induction m as [|[k0 v0] m IH]; simpl; [done|].
  destruct (String.eqb k0 k); simpl; [done|].
  rewrite IH. by destruct (Map_get k m).
Qed.

Lemma Map_delete_set_new k v m :
  Map_get k m = None → Map_delete k (Map_set k v m) = m.
Proof.
  induction m as [|[k0 v0] m IH]; simpl.
  - by rewrite String.eqb_refl.
  - destruct (String.eqb k0 k) eqn:E; [done|]. simpl. rewrite E.
    intros H. by rewrite IH.
Qed.

Lemma Map_get_delete_Some k k' v m :
  Map_get k' (Map_delete k m) = Some v → k' ∈ Map_keys m.
Proof.
  intros H. apply Map_get_Some_elem in H.
  unfold Map_keys. apply list_elem_of_fmap. exists (k', v). split; [done|].
  eapply elem_of_sublist; [exact H | apply Map_delete_sublist].
Qed.

Lemma Map_has_keys k m : Map_has k m = true ↔ k ∈ Map_keys m.
Proof.
  unfold Map_has. destruct (Map_get k m) eqn:H.
  - split; [intros _ | done].
    destruct (decide (k ∈ Map_keys m)) as [|Hn]; [done|].
    apply Map_get_None_keys in Hn. congruence.
  - split; [done|]. intros Hin. by apply Map_get_None_keys in H.
Qed.

Lemma Map_keys_set_same k v m :
  Map_has k m = true → Map_keys (Map_set k v m) = Map_keys m.
Proof.
  intros H. destruct (Map_keys_set k v m) as [?|[Hn _]]; [done|].
  by apply Map_has_keys in H.
Qed.

End JsMapMore.

Lemma Map_get_fmap {A B : Type} (f : A → B) k (m : JsMap A) :
  Map_get k ((λ e, (e.1, f e.2)) <$> m) = f <$> Map_get k m.
Proof.
  induction m as [|[k0 v0] m IH]; simpl; [done|].
  by destruct (String.eqb k0 k).
Qed.

Lemma Map_set_fmap {A B : Type} (f : A → B) k v (m : JsMap A) :
  Map_set k (f v) ((λ e, (e.1, f e.2)) <$> m)
  = (λ e, (e.1, f e.2)) <$> Map_set k v m.
Proof.
  induction m as [|[k0 v0] m IH]; simpl; [done|].
  destruct (String.eqb k0 k); simpl; [done|]. f_equal. exact IH.
Qed.

Lemma Map_delete_fmap {A B : Type} (f : A → B) k (m : JsMap A) :
  Map_delete k ((λ e, (e.1, f e.2)) <$> m)
  = (λ e, (e.1, f e.2)) <$> Map_delete k m.
Proof.
  induction m as [|[k0 v0] m IH]; simpl; [done|].
  destruct (String.eqb k0 k); simpl; [done|]. f_equal. exact IH.
Qed.

Lemma Map_has_fmap {A B : Type} (f : A → B) k (m : JsMap A) :
  Map_has k ((λ e, (e.1, f e.2)) <$> m) = Map_has k m.
Proof. unfold Map_has. rewrite Map_get_fmap. by destruct (Map_get k m). Qed.

Section Playback.
Variable URL_new : string → option URL.

(** X1: what a sync-url stores is what a later request-video-state reads:
    after a sync-url on a room that has a directory entry, a
    request-video-state on that room is answered to the requesting socket
    alone, with the embed form of the url, the reported position (0 when
    absent) and [isPlaying = true]; the request changes nothing. *)
Theorem sync_url_then_request_video_state now now' sid sid' roomId url ts s :
  Map_has roomId (rooms s) = true →
  let s1 := (step URL_new now sid (sync_url roomId url ts) s).1 in
  step URL_new now' sid' (request_video_state roomId) s1
  = (s1, [ {| recipients := {[sid']};
              payload :=
                video_state_updated_full
                  {| url := convertToEmbedUrl URL_new url;
                     timestamp := default 0%float ts;
                     isPlaying := true |} |} ]).
Proof.
  unfold Map_has. intros Hhas. cbn zeta. cbn [step]. unfold on_sync_url.
  destruct (Map_get roomId (rooms s)) as [room|]; [|done].
  cbn [fst]. unfold on_request_video_state. cbn [rooms].
  by rewrite Map_get_set_eq.
Qed.

(** X2: the last playback report wins.  A video-state-change overwrites
    what an earlier video-state-change on the same room stored, and a
    sync-url overwrites what any earlier playback event on the same room
    stored: the state after both events is the state after the later one
    alone. *)
Theorem last_playback_report_wins now1 now2 sid1 sid2 roomId s :
  (∀ p1 t1 p2 t2,
     (step URL_new now2 sid2 (video_state_change roomId p2 t2)
        (step URL_new now1 sid1 (video_state_change roomId p1 t1) s).1).1
     = (step URL_new now2 sid2 (video_state_change roomId p2 t2) s).1)
  ∧ (∀ ev1 url ts,
       is_playback_event_on roomId ev1 = true →
       (step URL_new now2 sid2 (sync_url roomId url ts)
          (step URL_new now1 sid1 ev1 s).1).1
       = (step URL_new now2 sid2 (sync_url roomId url ts) s).1).
Proof.
  split.
  - intros p1 t1 p2 t2.
    cbn [step]. unfold on_video_state_change. cbn [fst rooms adapter].
    destruct (Map_get roomId (rooms s)) as [room|] eqn:Hget; [|by rewrite Hget].
    destruct (videoState room) as [vs|] eqn:Hvs.
    + cbn [rooms]. rewrite Map_get_set_eq. cbn [videoState with_videoState].
      by rewrite Map_set_set.
    + by rewrite Hget, Hvs.
  - intros ev1 url ts Hev.
    destruct ev1 as [| | |r u1 ts1|r p1 t1| | |]; try discriminate Hev;
      cbn in Hev; apply String.eqb_eq in Hev; subst r.
    + cbn zeta. cbn [step]. unfold on_sync_url. cbn [fst rooms adapter].
      destruct (Map_get roomId (rooms s)) as [room|] eqn:Hget; [|by rewrite Hget].
      rewrite Map_get_set_eq. cbn [with_videoState members]. by rewrite Map_set_set.
    + cbn zeta. cbn [step]. unfold on_sync_url, on_video_state_change.
      cbn [fst rooms adapter].
      destruct (Map_get roomId (rooms s)) as [room|] eqn:Hget; [|by rewrite Hget].
      destruct (videoState room) as [vs|] eqn:Hvs; [|by rewrite Hget].
      rewrite Map_get_set_eq. cbn [with_videoState members]. by rewrite Map_set_set.
Qed.

End Playback.

(** ** The directory across one event *)

Lemma on_disconnect_get sid roomId s :
  wf_server s →
  Map_get roomId (rooms (on_disconnect sid s).1) =
    match Map_get roomId (rooms s) with
    | Some room =>
        match Map_get sid (members room) with
        | Some _ =>
            if (Map_size (Map_delete sid (members room)) =? 0)%nat then None
            else Some (with_members room (Map_delete sid (members room)))
        | None => Some room
        end
    | None => None
    end.
Proof.
  intros Hwf. rewrite on_disconnect_spec by done. cbn [fst rooms].
  rewrite disconnect_entries_get by apply Hwf.
  destruct (Map_get roomId (rooms s)) as [room|]; [|done].
  unfold disconnect_entry. cbn [fst snd].
  destruct (Map_get sid (members room)); [|done].
  cbn [fst members with_members]. by destruct (_ =? _)%nat.
Qed.

Section Directory.
Variable URL_new : string → option URL.

(** The entry of room [roomId] after one event, by cases on the event. *)
Lemma step_get now sid ev s roomId :
  wf_server s →
  Map_get roomId (rooms (step URL_new now sid ev s).1) =
    match ev with
    | join_room r user =>
        if String.eqb r roomId
        then Some {| members := Map_set (id user) user (members_of roomId s);
                     videoState := videoState_of roomId s |}
        else Map_get roomId (rooms s)
    | leave_room r user =>
        if String.eqb r roomId
        then match Map_get roomId (rooms s) with
             | Some room =>
                 if (Map_size (Map_delete (id user) (members room)) =? 0)%nat
                 then None
                 else Some (with_members room (Map_delete (id user) (members room)))
             | None => None
             end
        else Map_get roomId (rooms s)
    | sync_url r url ts =>
        if String.eqb r roomId
        then match Map_get roomId (rooms s) with
             | Some room =>
                 Some (with_videoState room
                         {| url := convertToEmbedUrl URL_new url;
                            timestamp := default 0%float ts;
                            isPlaying := true |})
             | None => None
             end
        else Map_get roomId (rooms s)
    | video_state_change r playing ts =>
        if String.eqb r roomId
        then match Map_get roomId (rooms s) with
             | Some room =>
                 match videoState room with
                 | Some vs =>
                     Some (with_videoState room
                             {| url := url vs; timestamp := ts;
                                isPlaying := playing |})
                 | None => Some room
                 end
             | None => None
             end
        else Map_get roomId (rooms s)
    | disconnect =>
        match Map_get roomId (rooms s) with
        | Some room =>
            match Map_get sid (members room) with
            | Some _ =>
                if (Map_size (Map_delete sid (members room)) =? 0)%nat then None
                else Some (with_members room (Map_delete sid (members room)))
            | None => Some room
            end
        | None => None
        end
    | connection | request_video_state _ | chat_message _ _ _ =>
        Map_get roomId (rooms s)
    end.
Proof.
  intros Hwf.
  destruct ev as [|r user|r user|r u ts|r playing ts|r|r message user|];
    cbn [step].
  - done.
  - rewrite on_join_room_spec. cbn zeta. cbn [fst rooms].
    destruct (String.eqb r roomId) eqn:E.
    + apply String.eqb_eq in E. subst r. by rewrite Map_get_set_eq.
    + apply String.eqb_neq in E. by rewrite Map_get_set_ne.
  - unfold on_leave_room. destruct (String.eqb r roomId) eqn:E.
    + apply String.eqb_eq in E. subst r.
      destruct (Map_get roomId (rooms s)) as [room|] eqn:Hget; [|done].
      cbn [members with_members].
      destruct (_ =? _)%nat; cbn [fst rooms].
      * apply Map_get_delete_eq, Hwf.
      * apply Map_get_set_eq.
    + apply String.eqb_neq in E.
      destruct (Map_get r (rooms s)) as [room|]; [|done].
      destruct (_ =? _)%nat; cbn [fst rooms].
      * by apply Map_get_delete_ne.
      * by apply Map_get_set_ne.
  - unfold on_sync_url. cbn [fst rooms]. destruct (String.eqb r roomId) eqn:E.
    + apply String.eqb_eq in E. subst r.
      destruct (Map_get roomId (rooms s)) as [room|] eqn:Hget; [|done].
      apply Map_get_set_eq.
    + apply String.eqb_neq in E.
      destruct (Map_get r (rooms s)) as [room|]; [|done].
      by apply Map_get_set_ne.
  - unfold on_video_state_change. cbn [fst rooms].
    destruct (String.eqb r roomId) eqn:E.
    + apply String.eqb_eq in E. subst r.
      destruct (Map_get roomId (rooms s)) as [room|] eqn:Hget; [|done].
      destruct (videoState room); [|done]. apply Map_get_set_eq.
    + apply String.eqb_neq in E.
      destruct (Map_get r (rooms s)) as [room|]; [|done].
      destruct (videoState room); [|done]. by apply Map_get_set_ne.
  - unfold on_request_video_state.
    destruct (Map_get r (rooms s)) as [room|]; [|done].
    by destruct (videoState room).
  - done.
  - by rewrite on_disconnect_get.
Qed.

(** The socket.io rooms after one event: only the connection, a join, a
    leave and the disconnect change them. *)
Lemma step_adapter now sid ev s :
  adapter (step URL_new now sid ev s).1 =
    match ev with
    | connection => socket_join sid sid (adapter s)
    | join_room r _ => socket_join sid r (adapter s)
    | leave_room r _ => socket_leave sid r (adapter s)
    | disconnect => socket_leave_all sid (adapter s)
    | sync_url _ _ _ | video_state_change _ _ _ | request_video_state _
    | chat_message _ _ _ => adapter s
    end.
Proof.
  destruct ev as [|r user|r user|r u ts|r playing ts|r|r message user|];
    cbn [step]; try done.
  - by rewrite on_join_room_spec.
  - unfold on_leave_room. destruct (Map_get r (rooms s)); [|done].
    cbn zeta. by destruct (_ =? _)%nat.
  - unfold on_request_video_state.
    destruct (Map_get r (rooms s)) as [room|]; [|done].
    by destruct (videoState room).
  - unfold on_disconnect.
    match goal with
    | |- adapter (disconnect_rooms sid ?l ?s0).1 = _ =>
        by destruct (disconnect_rooms_emits sid l s0) as [-> _]
    end.
Qed.

(** X3: a room's playback state is touched by playback events on that
    room only.  Across any other event (joins, leaves, disconnects, chat,
    requests, playback events on other rooms) a room that is still listed
    afterwards has the playback state it had before, and a room created by
    the event has none. *)
Theorem playback_kept_by_other_events now sid ev s roomId :
  wf_server s →
  is_playback_event_on roomId ev = false →
  Map_has roomId (rooms (step URL_new now sid ev s).1) = true →
  videoState_of roomId (step URL_new now sid ev s).1 = videoState_of roomId s.
Proof.
  intros Hwf Hev. unfold Map_has, videoState_of. rewrite step_get by done.
  destruct ev as [|r user|r user|r u ts|r playing ts|r|r message user|];
    cbn in Hev; try rewrite Hev; try done.
  - destruct (String.eqb r roomId); [|done]. done.
  - destruct (String.eqb r roomId); [|done].
    destruct (Map_get roomId (rooms s)) as [room|]; [|done].
    by destruct (_ =? _)%nat.
  - destruct (Map_get roomId (rooms s)) as [room|]; [|done].
    destruct (Map_get sid (members room)); [|done].
    by destruct (_ =? _)%nat.
Qed.

(** X4: only a join-room creates a directory entry: a room listed after
    any other event was listed before it. *)
Theorem room_entries_come_from_joins now sid ev s roomId :
  wf_server s →
  (∀ user, ev ≠ join_room roomId user) →
  Map_has roomId (rooms (step URL_new now sid ev s).1) = true →
  Map_has roomId (rooms s) = true.
Proof.
  intros Hwf Hev. unfold Map_has. rewrite step_get by done.
  destruct ev as [|r user|r user|r u ts|r playing ts|r|r message user|];
    try done.
  - destruct (String.eqb r roomId) eqn:E; [|done].
    apply String.eqb_eq in E. subst r. by destruct (Hev user).
  - destruct (String.eqb r roomId); [|done].
    by destruct (Map_get roomId (rooms s)).
  - destruct (String.eqb r roomId); [|done].
    by destruct (Map_get roomId (rooms s)).
  - destruct (String.eqb r roomId); [|done].
    by destruct (Map_get roomId (rooms s)).
  - by destruct (Map_get roomId (rooms s)).
Qed.

Lemma step_frame now sid ev s roomId other :
  wf_server s →
  room_of ev = Some roomId →
  other ≠ roomId →
  Map_get other (rooms (step URL_new now sid ev s).1) = Map_get other (rooms s)
  ∧ sockets_in (adapter (step URL_new now sid ev s).1) other
    = sockets_in (adapter s) other.
Proof.
  intros Hwf Hroom Hne. split.
  - rewrite step_get by done.
    destruct ev as [|r user|r user|r u ts|r playing ts|r|r message user|];
      try done; injection Hroom as ->;
      by assert (String.eqb roomId other = false) as ->
        by (apply String.eqb_neq; congruence).
  - rewrite step_adapter.
    destruct ev as [|r user|r user|r u ts|r playing ts|r|r message user|];
      try done; injection Hroom as ->.
    + rewrite sockets_in_join. by rewrite decide_False by congruence.
    + rewrite sockets_in_leave. by rewrite decide_False by congruence.
Qed.

(** X5: an event that names room R leaves every other room alone: the
    directory entry of any other room and the set of sockets in it are
    the same before and after. *)
Theorem other_rooms_untouched now sid ev s roomId other :
  wf_server s →
  room_of ev = Some roomId →
  other ≠ roomId →
  Map_get other (rooms (step URL_new now sid ev s).1) = Map_get other (rooms s)
  ∧ sockets_in (adapter (step URL_new now sid ev s).1) other
    = sockets_in (adapter s) other.
Proof. apply step_frame. Qed.

(** The sockets in the room an event names, after the event. *)
Lemma step_sockets_in now sid ev s roomId :
  room_of ev = Some roomId →
  sockets_in (adapter (step URL_new now sid ev s).1) roomId =
    match ev with
    | join_room _ _ => {[sid]} ∪ sockets_in (adapter s) roomId
    | leave_room _ _ => sockets_in (adapter s) roomId ∖ {[sid]}
    | _ => sockets_in (adapter s) roomId
    end.
Proof.
  intros Hroom. rewrite step_adapter.
  destruct ev as [|r user|r user|r u ts|r playing ts|r|r message user|];
    try done; injection Hroom as ->.
  - by rewrite sockets_in_join, decide_True.
  - by rewrite sockets_in_leave, decide_True.
Qed.

(** What an event on room R does to R's entry depends on R's entry only;
    what it emits depends on R's entry, R's sockets and the sockets in the
    room named by the sender's id. *)
Lemma step_get_local now sid ev s s' roomId :
  wf_server s → wf_server s' →
  room_of ev = Some roomId →
  Map_get roomId (rooms s) = Map_get roomId (rooms s') →
  Map_get roomId (rooms (step URL_new now sid ev s).1)
  = Map_get roomId (rooms (step URL_new now sid ev s').1).
Proof.
  intros Hwf Hwf' Hroom Heq. rewrite !step_get by done.
  unfold members_of, videoState_of. by rewrite Heq.
Qed.

Lemma step_emits_local now sid ev s s' roomId :
  room_of ev = Some roomId →
  Map_get roomId (rooms s) = Map_get roomId (rooms s') →
  sockets_in (adapter s) roomId = sockets_in (adapter s') roomId →
  sockets_in (adapter s) sid = sockets_in (adapter s') sid →
  (step URL_new now sid ev s).2 = (step URL_new now sid ev s').2.
Proof.
  intros Hroom Heq Hsock Hown.
  destruct ev as [|r user|r user|r u ts|r playing ts|r|r message user|];
    try done; injection Hroom as ->; cbn [step].
  - rewrite !on_join_room_spec. cbn zeta. cbn [snd].
    unfold members_of, to_others. rewrite !sockets_in_join.
    by rewrite Heq, Hsock, Hown.
  - unfold on_leave_room, to_room. rewrite !to_others_after_leave.
    rewrite !sockets_in_leave, !decide_True by done.
    rewrite <- Heq, <- Hsock, <- Hown.
    destruct (Map_get roomId (rooms s)) as [room|]; [|done].
    cbn zeta. by destruct (_ =? _)%nat.
  - unfold on_sync_url, to_others. cbn [snd]. by rewrite Hsock, Hown.
  - unfold on_video_state_change, to_others. cbn [snd]. by rewrite Hsock, Hown.
  - unfold on_request_video_state. rewrite <- Heq.
    destruct (Map_get roomId (rooms s)) as [room|]; [|done].
    by destruct (videoState room).
  - unfold on_chat_message, to_room. cbn [snd]. by rewrite Hsock.
Qed.

(** X21: events on different rooms do not interfere.  For two events that
    name different rooms, handling them in either order gives the same
    entry and the same sockets for every room; and the later one emits
    exactly what it would have emitted without the earlier one, provided
    the earlier one does not name the room of the later sender's socket
    id (whose sockets [socket.to] excepts). *)
Theorem events_on_different_rooms_commute
    now1 now2 sid1 sid2 ev1 ev2 r1 r2 s :
  wf_server s →
  room_of ev1 = Some r1 →
  room_of ev2 = Some r2 →
  r1 ≠ r2 →
  r1 ≠ sid2 →
  let s1 := (step URL_new now1 sid1 ev1 s).1 in
  let s2 := (step URL_new now2 sid2 ev2 s).1 in
  (step URL_new now2 sid2 ev2 s1).2 = (step URL_new now2 sid2 ev2 s).2
  ∧ (∀ r, Map_get r (rooms (step URL_new now2 sid2 ev2 s1).1)
          = Map_get r (rooms (step URL_new now1 sid1 ev1 s2).1))
  ∧ (∀ r, sockets_in (adapter (step URL_new now2 sid2 ev2 s1).1) r
          = sockets_in (adapter (step URL_new now1 sid1 ev1 s2).1) r).
Proof.
  intros Hwf H1 H2 Hne Hown. cbn zeta.
  pose proof (step_wf URL_new now1 sid1 ev1 s Hwf) as Hwf1.
  pose proof (step_wf URL_new now2 sid2 ev2 s Hwf) as Hwf2.
  assert (r2 ≠ r1) as Hne' by congruence.
  assert (sid2 ≠ r1) as Hown' by congruence.
  destruct (step_frame now1 sid1 ev1 s r1 r2 Hwf H1 Hne') as [Hg1 Hs1].
  destruct (step_frame now2 sid2 ev2 s r2 r1 Hwf H2 Hne) as [Hg2 Hs2].
  destruct (step_frame now1 sid1 ev1 s r1 sid2 Hwf H1 Hown') as [_ Hs3].
  split; [by apply (step_emits_local now2 sid2 ev2 _ s r2)|]. split.
  - intros r. destruct (decide (r = r2)) as [->|Hr2].
    + destruct (step_frame now1 sid1 ev1 _ r1 r2 Hwf2 H1 Hne') as [-> _].
      by apply step_get_local.
    + destruct (step_frame now2 sid2 ev2 _ r2 r Hwf1 H2 Hr2) as [-> _].
      destruct (decide (r = r1)) as [->|Hr1].
      * symmetry. apply step_get_local; [done | done | done |]. by symmetry.
      * destruct (step_frame now1 sid1 ev1 _ r1 r Hwf2 H1 Hr1) as [-> _].
        destruct (step_frame now1 sid1 ev1 s r1 r Hwf H1 Hr1) as [-> _].
        by destruct (step_frame now2 sid2 ev2 s r2 r Hwf H2 Hr2) as [-> _].
  - intros r. destruct (decide (r = r2)) as [->|Hr2].
    + destruct (step_frame now1 sid1 ev1 _ r1 r2 Hwf2 H1 Hne') as [_ ->].
      rewrite step_sockets_in by done. rewrite Hs1.
      symmetry. by apply step_sockets_in.
    + destruct (step_frame now2 sid2 ev2 _ r2 r Hwf1 H2 Hr2) as [_ ->].
      destruct (decide (r = r1)) as [->|Hr1].
      * rewrite (step_sockets_in now1 sid1 ev1
                   (step URL_new now2 sid2 ev2 s).1 r1) by done.
        rewrite Hs2. by apply step_sockets_in.
      * destruct (step_frame now1 sid1 ev1 _ r1 r Hwf2 H1 Hr1) as [_ ->].
        destruct (step_frame now1 sid1 ev1 s r1 r Hwf H1 Hr1) as [_ ->].
        by destruct (step_frame now2 sid2 ev2 s r2 r Hwf H2 Hr2) as [_ ->].
Qed.

End Directory.

(** ** Membership across one event *)

Section Membership.
Variable URL_new : string → option URL.

(** X6: playback, request and chat events never touch presence: the list
    of room ids, the membership of every room and the socket.io rooms are
    the same before and after. *)
Theorem playback_and_chat_keep_presence now sid ev s :
  is_presence_event ev = false →
  Map_keys (rooms (step URL_new now sid ev s).1) = Map_keys (rooms s)
  ∧ (∀ roomId, members_of roomId (step URL_new now sid ev s).1
               = members_of roomId s)
  ∧ adapter (step URL_new now sid ev s).1 = adapter s.
Proof.
  intros Hev.
  assert (∀ r room vs,
            Map_get r (rooms s) = Some room →
            Map_keys (Map_set r (with_videoState room vs) (rooms s))
            = Map_keys (rooms s)
            ∧ ∀ roomId,
                members_of roomId
                  {| rooms := Map_set r (with_videoState room vs) (rooms s);
                     adapter := adapter s |}
                = members_of roomId s) as Hset.
  { intros r room vs Hget. split.
    - apply Map_keys_set_same. unfold Map_has. by rewrite Hget.
    - intros roomId. unfold members_of. cbn [rooms].
      destruct (decide (r = roomId)) as [->|Hne].
      + by rewrite Map_get_set_eq, Hget.
      + by rewrite Map_get_set_ne. }
  destruct ev as [|r user|r user|r u ts|r playing ts|r|r message user|];
    try discriminate Hev; cbn [step].
  - unfold on_sync_url. cbn [fst].
    destruct (Map_get r (rooms s)) as [room|] eqn:Hget.
    + destruct (Hset r room {| url := convertToEmbedUrl URL_new u;
                               timestamp := default 0%float ts;
                               isPlaying := true |} Hget) as [Hk Hm].
      by repeat split.
    + by destruct s.
  - unfold on_video_state_change. cbn [fst].
    destruct (Map_get r (rooms s)) as [room|] eqn:Hget; [|by destruct s].
    destruct (videoState room) as [vs|]; [|by destruct s].
    destruct (Hset r room {| url := url vs; timestamp := ts;
                             isPlaying := playing |} Hget) as [Hk Hm].
    by repeat split.
  - unfold on_request_video_state.
    destruct (Map_get r (rooms s)) as [room|]; [|done].
    by destruct (videoState room).
  - done.
Qed.

(** X7: a join-room stores the member under its id without ever
    duplicating it: afterwards the id looks up the joining record, every
    other id looks up what it did before, and the room has one member
    more if the id was new and as many as before if it was already
    there. *)
Theorem join_room_inserts_once now sid roomId user s :
  let s' := (step URL_new now sid (join_room roomId user) s).1 in
  Map_get (id user) (members_of roomId s') = Some user
  ∧ (∀ k, k ≠ id user →
          Map_get k (members_of roomId s') = Map_get k (members_of roomId s))
  ∧ Map_size (members_of roomId s')
    = if Map_has (id user) (members_of roomId s)
      then Map_size (members_of roomId s)
      else S (Map_size (members_of roomId s)).
Proof.
  cbn zeta. cbn [step]. rewrite on_join_room_members_of.
  split; [apply Map_get_set_eq|]. split.
  - intros k Hk. by apply Map_get_set_ne.
  - apply Map_size_set.
Qed.

(** X8: joining and leaving cancel out.  When a member that is not yet in
    room R joins it and a leave-room for that member follows, the
    directory is what it was before the join: the other members and the
    playback state of R are back as they were, and a room created by the
    join is gone again. *)
Theorem join_then_leave_restores_rooms now now' sid sid' roomId user s :
  wf_server s →
  Map_get (id user) (members_of roomId s) = None →
  rooms (step URL_new now' sid' (leave_room roomId user)
           (step URL_new now sid (join_room roomId user) s).1).1
  = rooms s.
Proof.
  intros Hwf Hnew. cbn [step]. rewrite on_join_room_spec. cbn zeta. cbn [fst].
  unfold on_leave_room. cbn [rooms]. rewrite Map_get_set_eq.
  cbn [members with_members videoState]. rewrite Map_delete_set_new by done.
  unfold members_of, videoState_of in *.
  destruct (Map_get roomId (rooms s)) as [room|] eqn:Hget.
  - destruct (wf_room_get _ _ _ Hwf Hget) as [_ Hne].
    destruct (members room) as [|m ms] eqn:Hms; [done|].
    cbn [Map_size length Nat.eqb fst rooms]. rewrite Map_set_set.
    apply Map_set_same. rewrite Hget. f_equal. destruct room. cbn in *. by subst.
  - cbn [Map_size length Nat.eqb fst rooms]. by apply Map_delete_set_new.
Qed.

(** X9: what a disconnect does to the directory.  In every room, the
    member stored under the id of the closed socket is removed and nobody
    else; when no room has such a member, the handler emits nothing and
    the directory is unchanged. *)
Theorem disconnect_removes_member_keyed_by_socket now sid s :
  wf_server s →
  (∀ roomId,
     members_of roomId (step URL_new now sid disconnect s).1
     = Map_delete sid (members_of roomId s))
  ∧ ((∀ roomId, Map_get sid (members_of roomId s) = None) →
     rooms (step URL_new now sid disconnect s).1 = rooms s
     ∧ (step URL_new now sid disconnect s).2 = []).
Proof.
  intros Hwf. cbn [step].
  set (s0 := {| rooms := rooms s; adapter := socket_leave_all sid (adapter s) |}).
  assert (wf_server s0) as Hwf0 by exact Hwf. split.
  - intros roomId. by rewrite on_disconnect_members_of.
  - intros Hnone. by rewrite (on_disconnect_no_such_member sid s0 Hwf0 Hnone).
Qed.


End Membership.

(** ** Who receives what *)

Lemma difference_subseteq_union (X : gset string) (sid : string) :
  X ∖ {[sid]} ⊆ {[sid]} ∪ X.
Proof.
  intros x. rewrite elem_of_difference, elem_of_union. tauto.
Qed.

Section Delivery.
Variable URL_new : string → option URL.

Lemma step_emits_stay_in_room now sid ev s roomId :
  room_of ev = Some roomId →
  Forall (stays_in_room (adapter s) sid roomId) (step URL_new now sid ev s).2.
Proof.
  intros Hroom.
  destruct ev as [|r user|r user|r u ts|r playing ts|r|r message user|];
    try done; injection Hroom as ->; cbn [step].
  - rewrite on_join_room_spec. cbn zeta. cbn [snd].
    apply Forall_cons. split; [|apply Forall_singleton]; split; cbn; try done.
    + unfold to_self. apply union_subseteq_l.
    + etrans; [apply to_others_subseteq|].
      by rewrite sockets_in_join, decide_True.
    + intros _ c Hc. apply to_others_excepted. rewrite sockets_in_join.
      destruct (decide (roomId = sid)); [by apply elem_of_union_r | done].
  - unfold on_leave_room.
    assert (stays_in_room (adapter s) sid roomId
              {| recipients := to_others (socket_leave sid roomId (adapter s)) sid roomId;
                 payload := member_left user |}) as Hleft.
    { split; cbn; rewrite to_others_after_leave.
      - intros x. rewrite elem_of_difference, !elem_of_union. tauto.
      - intros _ c Hc. rewrite elem_of_difference, elem_of_union. tauto. }
    destruct (Map_get roomId (rooms s)) as [room|]; [|by apply Forall_nil].
    cbn zeta. destruct (_ =? _)%nat; cbn [snd].
    + by apply Forall_singleton.
    + apply Forall_cons. split; [done|]. apply Forall_singleton. split; cbn; [|done].
      unfold to_room. rewrite sockets_in_leave, decide_True by done.
      apply difference_subseteq_union.
  - apply Forall_singleton. split; cbn.
    + etrans; [apply to_others_subseteq | apply union_subseteq_r].
    + intros _ c. apply to_others_excepted.
  - apply Forall_singleton. split; cbn.
    + etrans; [apply to_others_subseteq | apply union_subseteq_r].
    + intros _ c. apply to_others_excepted.
  - unfold on_request_video_state.
    destruct (Map_get roomId (rooms s)) as [room|]; [|by apply Forall_nil].
    destruct (videoState room); [|by apply Forall_nil].
    apply Forall_singleton. split; cbn; [|done]. apply union_subseteq_l.
  - apply Forall_singleton. split; cbn; [|done]. apply union_subseteq_r.
Qed.

(** A socket is in a socket.io room only from an event by which it
    entered it, and stays in it until an event by which it quits it. *)
Lemma step_not_in now c ev s sid roomId :
  sid ∉ sockets_in (adapter s) roomId →
  enters sid roomId (now, c, ev) = false →
  sid ∉ sockets_in (adapter (step URL_new now c ev s).1) roomId.
Proof.
  intros Hout Hev. rewrite step_adapter. unfold enters in Hev. cbn [fst snd] in Hev.
  destruct ev as [|r user|r user|r u ts|r playing ts|r|r message user|];
    try done.
  - rewrite sockets_in_join. destruct (decide (c = roomId)) as [->|]; [|done].
    rewrite elem_of_union, elem_of_singleton. intros [->|?]; [|done].
    by rewrite String.eqb_refl in Hev.
  - rewrite sockets_in_join. destruct (decide (r = roomId)) as [->|]; [|done].
    rewrite elem_of_union, elem_of_singleton. intros [->|?]; [|done].
    by rewrite !String.eqb_refl in Hev.
  - rewrite sockets_in_leave. destruct (decide (r = roomId)); [|done].
    rewrite elem_of_difference. tauto.
  - rewrite sockets_in_leave_all, elem_of_difference. tauto.
Qed.

Lemma run_not_in trace s sid roomId :
  sid ∉ sockets_in (adapter s) roomId →
  Forall (λ x, enters sid roomId x = false) trace →
  sid ∉ sockets_in (adapter (run URL_new trace s).1) roomId.
Proof.
  revert s. induction trace as [|[[now c] ev] trace IH]; intros s Hout Hall;
    [done|].
  apply Forall_cons in Hall as [Hev Hall]. cbn [run].
  pose proof (step_not_in now c ev s sid roomId Hout Hev) as Hout1.
  destruct (step URL_new now c ev s) as [s1 out1].
  specialize (IH s1 Hout1 Hall). by destruct (run URL_new trace s1).
Qed.

Lemma step_still_in now c ev s sid roomId :
  sid ∈ sockets_in (adapter s) roomId →
  quits sid roomId (now, c, ev) = false →
  sid ∈ sockets_in (adapter (step URL_new now c ev s).1) roomId.
Proof.
  intros Hin Hev. rewrite step_adapter. unfold quits in Hev. cbn [fst snd] in Hev.
  destruct ev as [|r user|r user|r u ts|r playing ts|r|r message user|];
    try done.
  - rewrite sockets_in_join. destruct (decide (c = roomId)); [|done].
    by apply elem_of_union_r.
  - rewrite sockets_in_join. destruct (decide (r = roomId)); [|done].
    by apply elem_of_union_r.
  - rewrite sockets_in_leave. destruct (decide (r = roomId)) as [->|]; [|done].
    rewrite elem_of_difference, elem_of_singleton. split; [done|]. intros ->.
    by rewrite !String.eqb_refl in Hev.
  - rewrite sockets_in_leave_all, elem_of_difference, elem_of_singleton.
    split; [done|]. intros ->. by rewrite String.eqb_refl in Hev.
Qed.

Lemma run_still_in trace s sid roomId :
  sid ∈ sockets_in (adapter s) roomId →
  Forall (λ x, quits sid roomId x = false) trace →
  sid ∈ sockets_in (adapter (run URL_new trace s).1) roomId.
Proof.
  revert s. induction trace as [|[[now c] ev] trace IH]; intros s Hin Hall;
    [done|].
  apply Forall_cons in Hall as [Hev Hall]. cbn [run].
  pose proof (step_still_in now c ev s sid roomId Hin Hev) as Hin1.
  destruct (step URL_new now c ev s) as [s1 out1].
  specialize (IH s1 Hin1 Hall). by destruct (run URL_new trace s1).
Qed.

(** X11: an event that names room R never reaches a socket outside R other
    than its own sender, and the notifications it causes (member-joined,
    member-left, url-changed, video-state-updated) never reach a socket
    that is in the room named by the sender's socket id: they are not
    echoed to a sender that is in the room of its id. *)
Theorem emits_stay_in_named_room now sid ev s roomId e :
  room_of ev = Some roomId →
  e ∈ (step URL_new now sid ev s).2 →
  recipients e ⊆ {[sid]} ∪ sockets_in (adapter s) roomId
  ∧ (is_notification (payload e) = true →
     (∀ c, c ∈ sockets_in (adapter s) sid → c ∉ recipients e)
     ∧ (sid ∈ sockets_in (adapter s) sid → sid ∉ recipients e)).
Proof.
  intros Hroom He.
  pose proof (step_emits_stay_in_room now sid ev s roomId Hroom) as Hall.
  rewrite Forall_forall in Hall. destruct (Hall e He) as [Hsub Hnot].
  split; [done|]. intros Hn. split; [by apply Hnot | by apply Hnot].
Qed.

(** X12: leaving ends delivery.  Once a socket has sent leave-room for
    room R, and for as long as it does not enter R again, nothing that
    another socket's event on R emits reaches it, whatever events the
    server handles in between. *)
Theorem nothing_delivered_after_leave
    now now' sid sid' roomId user trace ev s e :
  Forall (λ x, enters sid roomId x = false) trace →
  sid' ≠ sid →
  room_of ev = Some roomId →
  let s1 := (step URL_new now sid (leave_room roomId user) s).1 in
  let s2 := (run URL_new trace s1).1 in
  e ∈ (step URL_new now' sid' ev s2).2 →
  sid ∉ recipients e.
Proof.
  intros Htrace Hne Hroom. cbn zeta. intros He.
  set (s1 := (step URL_new now sid (leave_room roomId user) s).1) in *.
  assert (sid ∉ sockets_in (adapter (run URL_new trace s1).1) roomId) as Hout.
  { apply run_not_in; [|done]. unfold s1. rewrite step_adapter.
    apply not_in_left_room. }
  pose proof (step_emits_stay_in_room now' sid' ev (run URL_new trace s1).1
                roomId Hroom) as Hall.
  rewrite Forall_forall in Hall. destruct (Hall e He) as [Hsub _].
  intros Hin. apply Hsub in Hin.
  apply elem_of_union in Hin as [Hin|Hin]; [|done].
  apply elem_of_singleton in Hin. congruence.
Qed.

(** X13: joining starts delivery.  Once a socket has sent join-room for
    room R, and for as long as it does not quit R, it receives every chat
    message sent to R, and every url-changed and video-state-updated
    broadcast caused on R by a socket in whose id-named room it is not,
    whatever events the server handles in between. *)
Theorem broadcasts_delivered_after_join
    now now' sid sid' roomId user trace ev s e :
  Forall (λ x, quits sid roomId x = false) trace →
  let s1 := (step URL_new now sid (join_room roomId user) s).1 in
  let s2 := (run URL_new trace s1).1 in
  (match ev with
   | chat_message r _ _ => r = roomId
   | sync_url r _ _ | video_state_change r _ _ =>
       r = roomId ∧ sid ∉ sockets_in (adapter s2) sid'
   | _ => False
   end) →
  e ∈ (step URL_new now' sid' ev s2).2 →
  sid ∈ recipients e.
Proof.
  intros Htrace. cbn zeta.
  set (s1 := (step URL_new now sid (join_room roomId user) s).1).
  assert (sid ∈ sockets_in (adapter (run URL_new trace s1).1) roomId) as Hin.
  { apply run_still_in; [|done]. unfold s1.
    rewrite step_adapter, sockets_in_join, decide_True by done.
    apply elem_of_union_l. by apply elem_of_singleton. }
  intros Hev.
  destruct ev as [|r u|r u|r u ts|r playing ts|r|r message u|]; try done;
    cbn [step]; intros He.
  - destruct Hev as [-> Hown]. apply list_elem_of_singleton in He. subst e. cbn.
    unfold to_others. by apply elem_of_difference.
  - destruct Hev as [-> Hown]. apply list_elem_of_singleton in He. subst e. cbn.
    unfold to_others. by apply elem_of_difference.
  - subst r. apply list_elem_of_singleton in He. by subst e.
Qed.

(** X23: the room of a socket's id stays its own.  A socket that is alone
    in the room named by its id remains alone in it across any events, as
    long as it neither leaves that room nor disconnects and no other
    socket joins it; for such a socket, [socket.to] on a room reaches
    exactly the other sockets of the room. *)
Theorem own_room_stays_private trace s sid :
  sockets_in (adapter s) sid = {[sid]} →
  Forall (λ x, quits sid sid x = false) trace →
  (∀ c, c ≠ sid → Forall (λ x, enters c sid x = false) trace) →
  let s' := (run URL_new trace s).1 in
  sockets_in (adapter s') sid = {[sid]}
  ∧ ∀ roomId,
      to_others (adapter s') sid roomId = sockets_in (adapter s') roomId ∖ {[sid]}.
Proof.
  intros Hown Hstay Hnone. cbn zeta.
  assert (sockets_in (adapter (run URL_new trace s).1) sid = {[sid]}) as Hown'.
  { apply set_eq. intros c. rewrite elem_of_singleton. split.
    - intros Hin. destruct (decide (c = sid)) as [|Hc]; [done|]. exfalso.
      revert Hin. apply run_not_in; [|by apply Hnone].
      rewrite Hown, elem_of_singleton. done.
    - intros ->. apply run_still_in; [|done].
      rewrite Hown. by apply elem_of_singleton. }
  split; [done|]. intros roomId. by apply to_others_own_room.
Qed.

End Delivery.

(** ** Snapshots never list an id twice *)

Lemma keyed_ids (ml : JsMap RoomMember) :
  Forall (λ kv : string * RoomMember, kv.1 = id kv.2) ml →
  id <$> Map_values ml = Map_keys ml.
Proof.
  unfold Map_values, Map_keys. induction 1 as [|[k u] ml Hk _ IH]; [done|].
  cbn in *. by rewrite IH, Hk.
Qed.

Lemma keyed_initial : keyed_by_id initial.
Proof. apply Forall_nil_2. Qed.

Lemma keyed_get roomId room s :
  keyed_by_id s → Map_get roomId (rooms s) = Some room →
  Forall (λ kv : string * RoomMember, kv.1 = id kv.2) (members room).
Proof.
  intros Hk Hget. apply Map_get_Some_elem in Hget.
  unfold keyed_by_id in Hk. rewrite Forall_forall in Hk. exact (Hk _ Hget).
Qed.

Lemma members_of_keyed roomId s :
  keyed_by_id s →
  Forall (λ kv : string * RoomMember, kv.1 = id kv.2) (members_of roomId s).
Proof.
  intros Hk. unfold members_of.
  destruct (Map_get roomId (rooms s)) as [room|] eqn:Hget; [|done].
  by apply (keyed_get roomId room s).
Qed.

Lemma snapshot_ids_NoDup (ml : JsMap RoomMember) :
  NoDup (Map_keys ml) →
  Forall (λ kv : string * RoomMember, kv.1 = id kv.2) ml →
  NoDup (id <$> Map_values ml).
Proof. intros Hnd Hk. by rewrite keyed_ids. Qed.

Lemma disconnect_entries_keyed sid a (l : JsMap RoomState) :
  Forall (λ e : string * RoomState,
            Forall (λ kv : string * RoomMember, kv.1 = id kv.2) (members e.2)) l →
  Forall (λ e : string * RoomState,
            Forall (λ kv : string * RoomMember, kv.1 = id kv.2) (members e.2))
    (l ≫= λ e, (disconnect_entry sid a e).1).
Proof.
  induction 1 as [|e l He _ IH]; [done|].
  cbn [mbind list_bind]. apply Forall_app. split; [|done].
  unfold disconnect_entry. destruct (Map_get sid (members e.2)); cbn [fst].
  - destruct (_ =? _)%nat; [done|]. apply Forall_singleton. cbn.
    by apply Map_delete_Forall.
  - by apply Forall_singleton.
Qed.

Section Snapshots.
Variable URL_new : string → option URL.

Lemma step_keyed now sid ev s :
  wf_server s → keyed_by_id s → keyed_by_id (step URL_new now sid ev s).1.
Proof.
  intros Hwf Hk.
  destruct ev as [|r user|r user|r u ts|r playing ts|r|r message user|];
    cbn [step].
  - done.
  - rewrite on_join_room_spec. cbn zeta. cbn [fst]. unfold keyed_by_id. cbn [rooms].
    apply Map_set_Forall; [|done]. cbn.
    apply Map_set_Forall; [done | by apply members_of_keyed].
  - unfold on_leave_room.
    destruct (Map_get r (rooms s)) as [room|] eqn:Hget; [|done].
    cbn zeta. destruct (_ =? _)%nat; unfold keyed_by_id; cbn [fst rooms].
    + by apply Map_delete_Forall.
    + apply Map_set_Forall; [|done]. cbn.
      apply Map_delete_Forall. by apply (keyed_get r room s).
  - unfold on_sync_url. cbn [fst].
    destruct (Map_get r (rooms s)) as [room|] eqn:Hget; [|done].
    unfold keyed_by_id. cbn [rooms]. apply Map_set_Forall; [|done]. cbn.
    by apply (keyed_get r room s).
  - unfold on_video_state_change. cbn [fst].
    destruct (Map_get r (rooms s)) as [room|] eqn:Hget; [|done].
    destruct (videoState room); [|done].
    unfold keyed_by_id. cbn [rooms]. apply Map_set_Forall; [|done]. cbn.
    by apply (keyed_get r room s).
  - unfold on_request_video_state.
    destruct (Map_get r (rooms s)) as [room|]; [|done].
    by destruct (videoState room).
  - done.
  - rewrite on_disconnect_spec by done. unfold keyed_by_id. cbn [fst rooms].
    by apply disconnect_entries_keyed.
Qed.

Lemma step_snapshots now sid ev s :
  wf_server s → keyed_by_id s →
  Forall (λ e, ∀ ms, payload e = room_state ms → NoDup (id <$> ms))
    (step URL_new now sid ev s).2.
Proof.
  intros Hwf Hk.
  destruct ev as [|r user|r user|r u ts|r playing ts|r|r message user|];
    cbn [step].
  - done.
  - rewrite on_join_room_spec. cbn zeta. cbn [snd].
    apply Forall_cons. split; [|by apply Forall_singleton].
    cbn. intros ms [= <-]. apply snapshot_ids_NoDup.
    + by apply Map_set_NoDup, members_of_NoDup.
    + apply Map_set_Forall; [done | by apply members_of_keyed].
  - unfold on_leave_room.
    destruct (Map_get r (rooms s)) as [room|] eqn:Hget; [|done].
    cbn zeta. destruct (_ =? _)%nat; cbn [snd].
    + by apply Forall_singleton.
    + apply Forall_cons. split; [done|]. apply Forall_singleton.
      cbn. intros ms [= <-]. apply snapshot_ids_NoDup.
      * apply Map_delete_NoDup. by destruct (wf_room_get _ _ _ Hwf Hget).
      * apply Map_delete_Forall. by apply (keyed_get r room s).
  - by apply Forall_singleton.
  - by apply Forall_singleton.
  - unfold on_request_video_state.
    destruct (Map_get r (rooms s)) as [room|]; [|done].
    destruct (videoState room); [|done]. by apply Forall_singleton.
  - by apply Forall_singleton.
  - rewrite on_disconnect_spec by done. cbn [snd rooms adapter].
    apply Forall_forall. intros e [[roomId room] [He Hin]]%list_elem_of_bind ms Hms.
    destruct Hwf as [_ Hrooms]. rewrite Forall_forall in Hrooms.
    destruct (Hrooms _ Hin) as [Hnd _]. cbn in Hnd.
    unfold keyed_by_id in Hk. rewrite Forall_forall in Hk.
    specialize (Hk _ Hin). cbn in Hk.
    unfold disconnect_entry in He. cbn [fst snd] in He.
    destruct (Map_get sid (members room)); cbn [snd] in He;
      [|by apply elem_of_nil in He].
    apply elem_of_cons in He as [-> | He]; [done|].
    cbn [members with_members] in He.
    destruct (0 <? _)%nat; [|by apply elem_of_nil in He].
    apply list_elem_of_singleton in He. subst e. cbn in Hms.
    injection Hms as <-. apply snapshot_ids_NoDup.
    + by apply Map_delete_NoDup.
    + by apply Map_delete_Forall.
Qed.

Lemma run_snapshots trace s :
  wf_server s → keyed_by_id s →
  Forall (λ e, ∀ ms, payload e = room_state ms → NoDup (id <$> ms))
    (run URL_new trace s).2.
Proof.
  revert s. induction trace as [|[[now sid] ev] trace IH]; intros s Hwf Hk; [done|].
  cbn [run].
  pose proof (step_wf URL_new now sid ev s Hwf) as Hwf1.
  pose proof (step_keyed now sid ev s Hwf Hk) as Hk1.
  pose proof (step_snapshots now sid ev s Hwf Hk) as Hout1.
  destruct (step URL_new now sid ev s) as [s1 out1].
  specialize (IH s1 Hwf1 Hk1).
  destruct (run URL_new trace s1) as [s2 out2].
  cbn [snd] in *. apply Forall_app. by split.
Qed.

(** X14: however the server is driven, no room-state snapshot it sends
    lists a member id twice. *)
Theorem snapshots_list_each_id_once trace e ms :
  e ∈ (run URL_new trace initial).2 →
  payload e = room_state ms →
  NoDup (id <$> ms).
Proof.
  intros He Hms.
  pose proof (run_snapshots trace initial wf_initial keyed_initial) as Hall.
  rewrite Forall_forall in Hall. exact (Hall e He ms Hms).
Qed.

End Snapshots.

(** ** One embed URL per video *)

Section Canonical.
Variable URL_new : string → option URL.

(** X15: the watch-page link and the short link of one video are sent as
    the same embed URL: a youtube.com or www.youtube.com URL whose [v]
    parameter is a non-empty id, and a youtu.be URL whose path is [/]
    followed by the same id, both convert to the embed URL of that id. *)
Theorem watch_and_short_links_agree watch short watchObj shortObj videoId :
  URL_new watch = Some watchObj →
  hostname watchObj = "www.youtube.com" ∨ hostname watchObj = "youtube.com" →
  searchParams_get "v" (searchParams watchObj) = Some videoId →
  videoId ≠ EmptyString →
  URL_new short = Some shortObj →
  hostname shortObj = "youtu.be" →
  pathname shortObj = String "/" videoId →
  convertToEmbedUrl URL_new watch = (embed_prefix ++ videoId)%string
  ∧ convertToEmbedUrl URL_new short = (embed_prefix ++ videoId)%string.
Proof.
  intros Hw Hhost Hv Hne Hs Hbe Hpath. unfold convertToEmbedUrl.
  rewrite Hw, Hs, Hv, Hbe, Hpath. cbn [slice1].
  apply String.eqb_neq in Hne. rewrite Hne. split.
  - by destruct Hhost as [-> | ->].
  - done.
Qed.

End Canonical.

(** ** The full server against the relay server *)

Lemma relay_get roomId (rs : JsMap RoomState) :
  Map_get roomId (relay_room <$> rs)
  = (λ room, {| Relay.members := members room |}) <$> Map_get roomId rs.
Proof. apply (Map_get_fmap (λ room, {| Relay.members := members room |})). Qed.

Lemma relay_has roomId (rs : JsMap RoomState) :
  Map_has roomId (relay_room <$> rs) = Map_has roomId rs.
Proof. apply (Map_has_fmap (λ room, {| Relay.members := members room |})). Qed.

Lemma relay_set roomId room (rs : JsMap RoomState) :
  Map_set roomId {| Relay.members := members room |} (relay_room <$> rs)
  = relay_room <$> Map_set roomId room rs.
Proof. apply (Map_set_fmap (λ room, {| Relay.members := members room |})). Qed.

Lemma relay_delete roomId (rs : JsMap RoomState) :
  Map_delete roomId (relay_room <$> rs) = relay_room <$> Map_delete roomId rs.
Proof. apply (Map_delete_fmap (λ room, {| Relay.members := members room |})). Qed.

Section AgainstRelay.
Variable URL_new : string → option URL.

Lemma filter_upgrade (out : list Relay.Emit) :
  List.filter (λ e, negb (is_state_answer e)) (upgrade_emit URL_new <$> out)
  = upgrade_emit URL_new <$> out.
Proof.
  induction out as [|e out IH]; [done|]. cbn [fmap list_fmap List.filter].
  assert (negb (is_state_answer (upgrade_emit URL_new e)) = true) as ->.
  { unfold is_state_answer, upgrade_emit. cbn. by destruct (Relay.payload e). }
  f_equal. exact IH.
Qed.

Lemma relay_disconnect_members sid roomId entries room s :
  relay_state (disconnect_members sid roomId entries room s).1
  = (Relay.disconnect_members sid roomId entries
       {| Relay.members := members room |} (relay_state s)).1
  ∧ (disconnect_members sid roomId entries room s).2
    = upgrade_emit URL_new
      <$> (Relay.disconnect_members sid roomId entries
             {| Relay.members := members room |} (relay_state s)).2.
Proof.
  revert room s. induction entries as [|[userId user] rest IH]; intros room s.
  - done.
  - cbn [disconnect_members Relay.disconnect_members].
    destruct (String.eqb userId sid); [|apply IH].
    cbn [Relay.members Relay.rooms Relay.adapter relay_state members with_members].
    set (room' := with_members room (Map_delete userId (members room))).
    set (rs' := if (Map_size (Map_delete userId (members room)) =? 0)%nat
                then Map_delete roomId (rooms s)
                else if Map_has roomId (rooms s)
                     then Map_set roomId room' (rooms s)
                     else rooms s).
    specialize (IH room' {| rooms := rs'; adapter := adapter s |}).
    assert ((if (Map_size (Map_delete userId (members room)) =? 0)%nat
             then Map_delete roomId (relay_room <$> rooms s)
             else if Map_has roomId (relay_room <$> rooms s)
                  then Map_set roomId
                         {| Relay.members := Map_delete userId (members room) |}
                         (relay_room <$> rooms s)
                  else relay_room <$> rooms s)
            = relay_room <$> rs') as ->.
    { subst rs'. rewrite relay_has, relay_delete.
      destruct (_ =? _)%nat; [done|].
      destruct (Map_has roomId (rooms s)); [|done].
      by rewrite <- relay_set. }
    change {| Relay.rooms := relay_room <$> rs'; Relay.adapter := adapter s |}
      with (relay_state {| rooms := rs'; adapter := adapter s |}).
    change {| Relay.members := Map_delete userId (members room) |}
      with {| Relay.members := members room' |}.
    destruct IH as [IH1 IH2].
    destruct (disconnect_members sid roomId rest room'
                {| rooms := rs'; adapter := adapter s |}) as [s4 out4].
    destruct (Relay.disconnect_members sid roomId rest
                {| Relay.members := members room' |}
                (relay_state {| rooms := rs'; adapter := adapter s |}))
      as [s3 out3].
    cbn [fst snd] in *. split; [done|]. subst out4.
    cbn [fmap list_fmap]. f_equal.
    rewrite fmap_app. f_equal. subst room'. cbn [members with_members].
    by destruct (0 <? _)%nat.
Qed.

Lemma relay_disconnect_rooms sid entries s :
  relay_state (disconnect_rooms sid entries s).1
  = (Relay.disconnect_rooms sid (relay_room <$> entries) (relay_state s)).1
  ∧ (disconnect_rooms sid entries s).2
    = upgrade_emit URL_new
      <$> (Relay.disconnect_rooms sid (relay_room <$> entries) (relay_state s)).2.
Proof.
  revert s. induction entries as [|[roomId room] rest IH]; intros s; [done|].
  cbn [disconnect_rooms Relay.disconnect_rooms fmap list_fmap relay_room fst snd].
  unfold Map_entries. cbn [Relay.members].
  destruct (relay_disconnect_members sid roomId (members room) room s) as [H1 H2].
  destruct (disconnect_members sid roomId (members room) room s) as [s1 out1].
  destruct (Relay.disconnect_members sid roomId (members room)
              {| Relay.members := members room |} (relay_state s)) as [t1 o1].
  cbn [fst snd] in *. subst t1 out1.
  destruct (IH s1) as [H3 H4].
  destruct (disconnect_rooms sid rest s1) as [s2 out2].
  destruct (Relay.disconnect_rooms sid (relay_room <$> rest) (relay_state s1))
    as [t2 o2].
  cbn [fst snd] in *. subst t2 out2. split; [done|]. by rewrite fmap_app.
Qed.

Lemma relay_step now sid ev s :
  relay_state (step URL_new now sid ev s).1
  = (Relay.step now sid ev (relay_state s)).1
  ∧ List.filter (λ e, negb (is_state_answer e)) (step URL_new now sid ev s).2
    = upgrade_emit URL_new <$> (Relay.step now sid ev (relay_state s)).2.
Proof.
  destruct ev as [|r user|r user|r u ts|r playing ts|r|r message user|];
    cbn [step Relay.step].
  - done.
  - rewrite on_join_room_spec. cbn zeta. cbn [fst snd].
    unfold Relay.on_join_room. cbn [Relay.rooms Relay.adapter relay_state].
    rewrite relay_has. unfold Map_has, members_of.
    destruct (Map_get r (rooms s)) as [room|] eqn:Hget; cbn [negb].
    + rewrite relay_get, Hget. cbn [fmap option_fmap option_map Relay.members fst snd].
      split; [|done]. unfold relay_state. cbn [rooms adapter]. f_equal.
      symmetry. apply (relay_set r {| members := Map_set (id user) user (members room);
                                      videoState := videoState room |}).
    + rewrite Map_get_set_eq. cbn [Relay.members fst snd]. split; [|done].
      unfold relay_state. cbn [rooms adapter]. f_equal.
      rewrite Map_set_set. symmetry.
      apply (relay_set r {| members := Map_set (id user) user [];
                            videoState := None |}).
  - unfold on_leave_room, Relay.on_leave_room.
    cbn [Relay.rooms Relay.adapter relay_state]. rewrite relay_get.
    destruct (Map_get r (rooms s)) as [room|] eqn:Hget; [|done].
    cbn [fmap option_fmap option_map Relay.members members with_members].
    destruct (_ =? _)%nat; cbn [fst snd].
    + split; [|done]. unfold relay_state. cbn [rooms adapter].
      by rewrite relay_delete.
    + split; [|done]. unfold relay_state. cbn [rooms adapter]. f_equal.
      symmetry. apply (relay_set r (with_members room (Map_delete (id user) (members room)))).
  - unfold on_sync_url, Relay.on_sync_url. cbn [fst snd]. split; [|done].
    unfold relay_state. cbn [rooms adapter]. f_equal.
    destruct (Map_get r (rooms s)) as [room|] eqn:Hget; [|done].
    rewrite <- relay_set. cbn [members with_videoState].
    apply Map_set_same. rewrite relay_get, Hget. done.
  - unfold on_video_state_change, Relay.on_video_state_change. cbn [fst snd].
    split; [|done]. unfold relay_state. cbn [rooms adapter]. f_equal.
    destruct (Map_get r (rooms s)) as [room|] eqn:Hget; [|done].
    destruct (videoState room); [|done].
    rewrite <- relay_set. cbn [members with_videoState].
    apply Map_set_same. rewrite relay_get, Hget. done.
  - unfold on_request_video_state.
    destruct (Map_get r (rooms s)) as [room|]; [|done].
    by destruct (videoState room).
  - done.
  - unfold on_disconnect, Relay.on_disconnect, Map_entries.
    cbn [rooms adapter Relay.rooms Relay.adapter relay_state].
    destruct (relay_disconnect_rooms sid (rooms s)
                {| rooms := rooms s; adapter := socket_leave_all sid (adapter s) |})
      as [H1 H2].
    split; [exact H1|]. rewrite H2. apply filter_upgrade.
Qed.

(** X16: the full server is the relay server plus playback state.  Driven
    by the same events, both keep the same rooms with the same members in
    the same order and the same socket.io rooms, and the full server's
    emits, the answers to request-video-state left aside, are the relay
    server's, emit by emit to the same sockets, except that a url is sent
    in embed form and an absent position as 0. *)
Theorem full_server_extends_relay trace :
  relay_state (run URL_new trace initial).1 = (Relay.run trace Relay.initial).1
  ∧ List.filter (λ e, negb (is_state_answer e)) (run URL_new trace initial).2
    = upgrade_emit URL_new <$> (Relay.run trace Relay.initial).2.
Proof.
  change Relay.initial with (relay_state initial). generalize initial.
  induction trace as [|[[now sid] ev] trace IH]; intros s; [done|].
  cbn [run Relay.run].
  destruct (relay_step now sid ev s) as [H1 H2].
  destruct (step URL_new now sid ev s) as [s1 out1].
  destruct (Relay.step now sid ev (relay_state s)) as [t1 o1].
  cbn [fst snd] in *. subst t1.
  destruct (IH s1) as [H3 H4].
  destruct (run URL_new trace s1) as [s2 out2].
  destruct (Relay.run trace (relay_state s1)) as [t2 o2].
  cbn [fst snd] in *. split; [done|].
  by rewrite List.filter_app, H2, H4, fmap_app.
Qed.

End AgainstRelay.

(** ** The full server against the first server *)

Lemma disconnect_members_no_chat sid roomId entries room s :
  omap chat_delivery (disconnect_members sid roomId entries room s).2 = [].
Proof.
  revert room s. induction entries as [|[userId user] rest IH]; intros room s.
  - done.
  - cbn [disconnect_members]. destruct (String.eqb userId sid); [|apply IH].
    match goal with
    | |- context [disconnect_members sid roomId rest ?room' ?s'] =>
        specialize (IH room' s');
        destruct (disconnect_members sid roomId rest room' s') as [s2 out]
    end.
    cbn [snd] in *. cbn [omap list_omap chat_delivery payload].
    rewrite omap_app, IH. by destruct (0 <? _)%nat.
Qed.

Lemma disconnect_rooms_no_chat sid entries s :
  omap chat_delivery (disconnect_rooms sid entries s).2 = [].
Proof.
  revert s. induction entries as [|[roomId room] rest IH]; intros s; [done|].
  cbn [disconnect_rooms].
  pose proof (disconnect_members_no_chat sid roomId (Map_entries (members room)) room s)
    as H1.
  destruct (disconnect_members sid roomId (Map_entries (members room)) room s)
    as [s1 out1].
  specialize (IH s1). destruct (disconnect_rooms sid rest s1) as [s2 out2].
  cbn [snd] in *. by rewrite omap_app, H1, IH.
Qed.

Section AgainstInitSocket.
Variable URL_new : string → option URL.

Lemma initSocket_step now sid ev s :
  match to_initSocket ev with
  | Some ev1 =>
      adapter (step URL_new now sid ev s).1
      = (InitSocket.step now sid ev1 (adapter s)).1
      ∧ omap chat_delivery (step URL_new now sid ev s).2
        = omap initSocket_chat_delivery
            (InitSocket.step now sid ev1 (adapter s)).2
  | None =>
      adapter (step URL_new now sid ev s).1 = adapter s
      ∧ omap chat_delivery (step URL_new now sid ev s).2 = []
  end.
Proof.
  rewrite step_adapter.
  destruct ev as [|r user|r user|r u ts|r playing ts|r|r message user|];
    cbn [to_initSocket InitSocket.step fst snd step]; split; try done.
  - by rewrite on_join_room_spec.
  - unfold on_leave_room. destruct (Map_get r (rooms s)); [|done].
    cbn zeta. by destruct (_ =? _)%nat.
  - unfold on_request_video_state.
    destruct (Map_get r (rooms s)) as [room|]; [|done].
    by destruct (videoState room).
  - apply disconnect_rooms_no_chat.
Qed.

(** X17: the first server ([initSocket]) and the full server route alike.
    Driven by corresponding events, both have the same sockets in the
    same socket.io rooms at every point, and every chat message is
    delivered by both to the same sockets with the same text and the same
    timestamp. *)
Theorem full_server_routes_like_initSocket trace :
  adapter (run URL_new trace initial).1
  = (InitSocket.run (to_initSocket_trace trace) ∅).1
  ∧ omap chat_delivery (run URL_new trace initial).2
    = omap initSocket_chat_delivery
        (InitSocket.run (to_initSocket_trace trace) ∅).2.
Proof.
  change (∅ : gmap string (gset string)) with (adapter initial).
  generalize initial.
  induction trace as [|[[now sid] ev] trace IH]; intros s; [done|].
  cbn [run to_initSocket_trace omap list_omap fst snd].
  fold (to_initSocket_trace trace).
  pose proof (initSocket_step now sid ev s) as Hstep.
  destruct (step URL_new now sid ev s) as [s1 out1]. cbn [fst snd] in Hstep.
  specialize (IH s1). destruct (run URL_new trace s1) as [s2 out2].
  cbn [fst snd] in *. rewrite omap_app.
  destruct (to_initSocket ev) as [ev1|]; cbn [fmap option_fmap option_map].
  - cbn [InitSocket.run]. destruct Hstep as [Ha Hout].
    destruct (InitSocket.step now sid ev1 (adapter s)) as [a1 o1].
    cbn [fst snd] in *. subst a1. destruct IH as [IH1 IH2].
    destruct (InitSocket.run (to_initSocket_trace trace) (adapter s1)) as [a2 o2].
    cbn [fst snd] in *. split; [done|]. by rewrite omap_app, Hout, IH2.
  - destruct Hstep as [Ha Hout]. rewrite Ha in IH. destruct IH as [IH1 IH2].
    split; [done|]. by rewrite Hout, IH2.
Qed.

End AgainstInitSocket.

(** ** The watch page's member list against the server's *)

Lemma Map_values_set_new (k : string) (u : RoomMember) (ml : JsMap RoomMember) :
  Map_get k ml = None → Map_values (Map_set k u ml) = Map_values ml ++ [u].
Proof.
  intros H. rewrite Map_set_new by done. unfold Map_values. by rewrite fmap_app.
Qed.

Section ClientView.
Variable URL_new : string → option URL.

(** X18: the joiner's list is the server's.  Whatever list the page held,
    after it has handled what a join-room of its own socket makes the
    server send to it, its member list is the server's member list of the
    room, in the server's order, provided its socket is in the room named
    by its id (where socket.io puts it at connection), so that its own
    member-joined event is not sent back to it. *)
Theorem joiner_sees_server_members now sid roomId user s view :
  sid ∈ sockets_in (adapter s) sid →
  let r := step URL_new now sid (join_room roomId user) s in
  client_members sid r.2 view = Map_values (members_of roomId r.1).
Proof.
  intros Hown. cbn zeta. cbn [step]. rewrite on_join_room_members_of.
  rewrite on_join_room_spec. cbn zeta. cbn [snd].
  unfold client_members, delivered_to.
  rewrite filter_cons, decide_True by (cbn; unfold to_self; by apply elem_of_singleton).
  rewrite filter_cons, decide_False; [done|].
  cbn. apply to_others_excepted. rewrite sockets_in_join.
  destruct (decide (roomId = sid)); [by apply elem_of_union_r | done].
Qed.

(** X19: the others' lists follow a new member.  A page on another socket
    of the room whose list is the server's member list before a member
    with a new id joins, has the server's member list after it has
    handled what the join makes the server send to it, provided its
    socket is not in the room named by the joiner's socket id. *)
Theorem others_follow_new_member now sid roomId user s c :
  c ≠ sid →
  c ∈ sockets_in (adapter s) roomId →
  c ∉ sockets_in (adapter s) sid →
  Map_get (id user) (members_of roomId s) = None →
  let r := step URL_new now sid (join_room roomId user) s in
  client_members c r.2 (Map_values (members_of roomId s))
  = Map_values (members_of roomId r.1).
Proof.
  intros Hc Hin Hown Hnew. cbn zeta. cbn [step]. rewrite on_join_room_members_of.
  rewrite on_join_room_spec. cbn zeta. cbn [snd].
  unfold client_members, delivered_to.
  rewrite filter_cons, decide_False
    by (cbn; unfold to_self; rewrite elem_of_singleton; congruence).
  rewrite filter_cons, decide_True.
  - cbn. unfold onMemberJoin. by rewrite Map_values_set_new.
  - cbn. unfold to_others. rewrite !sockets_in_join, decide_True by done.
    apply elem_of_difference. split; [by apply elem_of_union_r|].
    destruct (decide (roomId = sid)); [|done].
    rewrite elem_of_union, elem_of_singleton. tauto.
Qed.

(** X20: a leave re-synchronises the others.  After a leave-room that
    leaves the room non-empty, every page on a socket still in the room
    has, whatever list it held before, the server's member list of the
    room once it has handled what the server sent to it. *)
Theorem leave_resyncs_remaining_pages now sid roomId user s c view :
  wf_server s →
  let r := step URL_new now sid (leave_room roomId user) s in
  members_of roomId r.1 ≠ [] →
  c ∈ sockets_in (adapter r.1) roomId →
  client_members c r.2 view = Map_values (members_of roomId r.1).
Proof.
  intros Hwf. cbn zeta. unfold members_of at 1 2.
  rewrite step_get, step_adapter by done. rewrite String.eqb_refl.
  cbn [step]. unfold on_leave_room.
  destruct (Map_get roomId (rooms s)) as [room|] eqn:Hget; [|done].
  cbn [members with_members].
  destruct (_ =? _)%nat; [done|]. cbn [members with_members snd].
  intros _ Hin. unfold client_members, delivered_to.
  rewrite sockets_in_leave, decide_True in Hin by done.
  assert (c ∈ to_room (socket_leave sid roomId (adapter s)) roomId) as Hroom.
  { unfold to_room. by rewrite sockets_in_leave, decide_True. }
  rewrite filter_cons.
  destruct (decide (c ∈ recipients
                      {| recipients :=
                           to_others (socket_leave sid roomId (adapter s)) sid roomId;
                         payload := member_left user |}));
    by rewrite filter_cons, decide_True.
Qed.

End ClientView.

(** ** The further properties at concrete inputs *)


Lemma two_joined_playing_wf : wf_server two_joined_playing.
Proof. unfold two_joined_playing. apply step_wf, two_joined_wf. Qed.

Lemma sync_url_then_request_video_state_witness :
  step URL_basic 1 "sB" (request_video_state "abc") two_joined_playing
  = (two_joined_playing,
     [ {| recipients := {[ "sB" ]};
          payload :=
            video_state_updated_full
              {| url := "https://www.youtube.com/embed/xyz";
                 timestamp := 3.5%float; isPlaying := true |} |} ]).
Proof.
  assert (H := sync_url_then_request_video_state URL_basic 0 1 "sA" "sB" "abc"
                 "https://youtu.be/xyz" (Some 3.5%float) two_joined eq_refl).
  exact H.
Defined.

Lemma playback_kept_by_other_events_witness :
  videoState_of "abc"
    (step URL_basic 1 "sB" (leave_room "abc" bob) two_joined_playing).1
  = Some {| url := "https://www.youtube.com/embed/xyz";
            timestamp := 3.5%float; isPlaying := true |}.
Proof.
  assert (H := playback_kept_by_other_events URL_basic 1 "sB"
                 (leave_room "abc" bob) two_joined_playing "abc"
                 two_joined_playing_wf eq_refl eq_refl).
  exact H.
Defined.

Lemma room_entries_come_from_joins_witness :
  Map_has "abc" (rooms two_joined) = true.
Proof.
  apply (room_entries_come_from_joins URL_basic 1 "sA"
           (chat_message "abc" "hi" alice) two_joined "abc" two_joined_wf).
  - intros user H. discriminate H.
  - vm_compute. reflexivity.
Defined.

Lemma other_rooms_untouched_witness :
  Map_get "abc" (rooms (step URL_basic 1 "sB" (join_room "xyz" bob) two_joined).1)
  = Map_get "abc" (rooms two_joined)
  ∧ sockets_in (adapter (step URL_basic 1 "sB" (join_room "xyz" bob) two_joined).1)
      "abc"
    = sockets_in (adapter two_joined) "abc".
Proof.
  apply (other_rooms_untouched URL_basic 1 "sB" (join_room "xyz" bob)
           two_joined "xyz" "abc" two_joined_wf eq_refl).
  discriminate.
Defined.

Lemma playback_and_chat_keep_presence_witness :
  Map_keys (rooms two_joined_playing) = Map_keys (rooms two_joined)
  ∧ adapter two_joined_playing = adapter two_joined.
Proof.
  destruct (playback_and_chat_keep_presence URL_basic 0 "sA"
              (sync_url "abc" "https://youtu.be/xyz" (Some 3.5%float))
              two_joined eq_refl) as (Hkeys & _ & Hadapter).
  exact (conj Hkeys Hadapter).
Defined.

Lemma join_then_leave_restores_rooms_witness :
  rooms (step URL_basic 2 "sA" (leave_room "abc" carol)
           (step URL_basic 1 "sC" (join_room "abc" carol) two_joined).1).1
  = rooms two_joined.
Proof.
  exact (join_then_leave_restores_rooms URL_basic 1 2 "sC" "sA" "abc" carol
           two_joined two_joined_wf eq_refl).
Defined.

Lemma disconnect_removes_member_keyed_by_socket_witness :
  members_of "abc" (step URL_basic 1 "sB" disconnect two_joined).1
  = Map_delete "sB" (members_of "abc" two_joined).
Proof.
  exact (proj1 (disconnect_removes_member_keyed_by_socket URL_basic 1 "sB"
                  two_joined two_joined_wf) "abc").
Defined.


Lemma emits_stay_in_named_room_witness :
  "sA" ∉ ({[ "sB" ]} : gset string).
Proof.
  assert (Hin : {| recipients := {[ "sB" ]};
                   payload := url_changed "http://x" 0%float |}
                ∈ (step URL_basic 1 "sA" (sync_url "abc" "http://x" None)
                     two_joined).2).
  { vm_compute. apply list_elem_of_here. }
  assert (Hown : "sA" ∈ sockets_in (adapter two_joined) "sA").
  { apply (bool_decide_unpack _). vm_compute. reflexivity. }
  exact (proj2 (proj2 (emits_stay_in_named_room URL_basic 1 "sA"
                         (sync_url "abc" "http://x" None) two_joined "abc" _
                         eq_refl Hin) eq_refl) Hown).
Defined.

Lemma nothing_delivered_after_leave_witness :
  "sB" ∉ ({[ "sA" ]} : gset string).
Proof.
  assert (Htrace : Forall (λ x, enters "sB" "abc" x = false)
                     [ (2%Z, "sA", sync_url "abc" "http://x" None);
                       (3%Z, "sB", request_video_state "abc");
                       (4%Z, "sB", join_room "xyz" bob) ]).
  { repeat constructor. }
  assert (Hin : {| recipients := {[ "sA" ]};
                   payload := new_message alice "hi"
                                "1970-01-01T00:00:00.005Z" |}
                ∈ (step URL_basic 5 "sA" (chat_message "abc" "hi" alice)
                     (run URL_basic
                        [ (2%Z, "sA", sync_url "abc" "http://x" None);
                          (3%Z, "sB", request_video_state "abc");
                          (4%Z, "sB", join_room "xyz" bob) ]
                        (step URL_basic 1 "sB" (leave_room "abc" bob)
                           two_joined).1).1).2).
  { vm_compute. apply list_elem_of_here. }
  assert (Hne : "sA" ≠ "sB") by discriminate.
  exact (nothing_delivered_after_leave URL_basic 1 5 "sB" "sA" "abc" bob _
           (chat_message "abc" "hi" alice) two_joined _ Htrace Hne eq_refl Hin).
Defined.

Lemma broadcasts_delivered_after_join_witness :
  "sC" ∈ ({[ "sC" ]} : gset string).
Proof.
  assert (Htrace : Forall (λ x, quits "sC" "abc" x = false)
                     [ (2%Z, "sA", chat_message "abc" "hi" alice);
                       (3%Z, "sC", leave_room "xyz" carol);
                       (4%Z, "sB", disconnect) ]).
  { repeat constructor. }
  assert (Hown : "sC" ∉ sockets_in
                          (adapter
                             (run URL_basic
                                [ (2%Z, "sA", chat_message "abc" "hi" alice);
                                  (3%Z, "sC", leave_room "xyz" carol);
                                  (4%Z, "sB", disconnect) ]
                                (step URL_basic 1 "sC" (join_room "abc" carol)
                                   two_joined_one_idle).1).1) "sA").
  { apply (bool_decide_unpack _). vm_compute. reflexivity. }
  assert (Hin : {| recipients := {[ "sC" ]};
                   payload := url_changed "http://x" 0%float |}
                ∈ (step URL_basic 5 "sA" (sync_url "abc" "http://x" None)
                     (run URL_basic
                        [ (2%Z, "sA", chat_message "abc" "hi" alice);
                          (3%Z, "sC", leave_room "xyz" carol);
                          (4%Z, "sB", disconnect) ]
                        (step URL_basic 1 "sC" (join_room "abc" carol)
                           two_joined_one_idle).1).1).2).
  { vm_compute. apply list_elem_of_here. }
  pose proof (broadcasts_delivered_after_join URL_basic 1 5 "sC" "sA" "abc"
                carol _ (sync_url "abc" "http://x" None) two_joined_one_idle _
                Htrace (conj eq_refl Hown) Hin) as H.
  exact H.
Defined.

Lemma own_room_stays_private_witness :
  sockets_in
    (adapter
       (run URL_basic
          [ (1%Z, "sC", connection); (2%Z, "sC", join_room "abc" carol);
            (3%Z, "sA", leave_room "abc" alice); (4%Z, "sB", disconnect) ]
          two_joined).1) "sA"
  = {[ "sA" ]}.
Proof.
  assert (Hown : sockets_in (adapter two_joined) "sA" = {[ "sA" ]})
    by (vm_compute; reflexivity).
  assert (Hstay : Forall (λ x, quits "sA" "sA" x = false)
                    [ (1%Z, "sC", connection);
                      (2%Z, "sC", join_room "abc" carol);
                      (3%Z, "sA", leave_room "abc" alice);
                      (4%Z, "sB", disconnect) ]).
  { repeat constructor. }
  assert (Hnone : ∀ c, c ≠ "sA" →
                    Forall (λ x, enters c "sA" x = false)
                      [ (1%Z, "sC", connection);
                        (2%Z, "sC", join_room "abc" carol);
                        (3%Z, "sA", leave_room "abc" alice);
                        (4%Z, "sB", disconnect) ]).
  { intros c Hc. apply String.eqb_neq in Hc.
    repeat (apply Forall_cons; split;
            [unfold enters; cbn [fst snd]; rewrite ?Hc; apply andb_false_r|]).
    apply Forall_nil_2. }
  exact (proj1 (own_room_stays_private URL_basic _ two_joined "sA"
                  Hown Hstay Hnone)).
Defined.

Lemma snapshots_list_each_id_once_witness :
  NoDup (id <$> [alice; bob]).
Proof.
  assert (Hin : {| recipients := {[ "sB" ]}; payload := room_state [alice; bob] |}
                ∈ (run URL_basic
                     [ (0%Z, "sA", connection); (0%Z, "sB", connection);
                       (0%Z, "sA", join_room "abc" alice);
                       (0%Z, "sB", join_room "abc" bob) ] initial).2).
  { vm_compute. apply list_elem_of_further, list_elem_of_further, list_elem_of_here. }
  exact (snapshots_list_each_id_once URL_basic _ _ [alice; bob] Hin eq_refl).
Defined.

Lemma watch_and_short_links_agree_witness :
  convertToEmbedUrl URL_basic "https://www.youtube.com/watch?v=abc"
  = "https://www.youtube.com/embed/abc"
  ∧ convertToEmbedUrl URL_basic "https://youtu.be/abc"
    = "https://www.youtube.com/embed/abc".
Proof.
  assert (Hne : "abc" ≠ EmptyString) by discriminate.
  exact (watch_and_short_links_agree URL_basic
           "https://www.youtube.com/watch?v=abc" "https://youtu.be/abc"
           {| hostname := "www.youtube.com"; pathname := "/watch";
              searchParams := [("v", "abc")] |}
           {| hostname := "youtu.be"; pathname := "/abc"; searchParams := [] |}
           "abc" eq_refl (or_introl eq_refl) eq_refl Hne eq_refl eq_refl eq_refl).
Defined.

Lemma joiner_sees_server_members_witness :
  client_members "sC"
    (step URL_basic 1 "sC" (join_room "abc" carol) two_joined_one_idle).2
    [bob]
  = [alice; bob; carol].
Proof.
  assert (Hown : "sC" ∈ sockets_in (adapter two_joined_one_idle) "sC").
  { apply (bool_decide_unpack _). vm_compute. reflexivity. }
  exact (joiner_sees_server_members URL_basic 1 "sC" "abc" carol
           two_joined_one_idle [bob] Hown).
Defined.

Lemma others_follow_new_member_witness :
  client_members "sA"
    (step URL_basic 1 "sC" (join_room "abc" carol) two_joined_one_idle).2
    [alice; bob]
  = [alice; bob; carol].
Proof.
  assert (Hne : "sA" ≠ "sC") by discriminate.
  assert (Hin : "sA" ∈ sockets_in (adapter two_joined_one_idle) "abc").
  { apply (bool_decide_unpack _). vm_compute. reflexivity. }
  assert (Hown : "sA" ∉ sockets_in (adapter two_joined_one_idle) "sC").
  { apply (bool_decide_unpack _). vm_compute. reflexivity. }
  exact (others_follow_new_member URL_basic 1 "sC" "abc" carol
           two_joined_one_idle "sA" Hne Hin Hown eq_refl).
Defined.

Lemma leave_resyncs_remaining_pages_witness :
  client_members "sA"
    (step URL_basic 1 "sB" (leave_room "abc" bob) two_joined).2 [bob; bob]
  = [alice].
Proof.
  assert (Hne : members_of "abc"
                  (step URL_basic 1 "sB" (leave_room "abc" bob) two_joined).1
                ≠ []) by (vm_compute; discriminate).
  assert (Hin : "sA" ∈ sockets_in
                         (adapter (step URL_basic 1 "sB" (leave_room "abc" bob)
                                     two_joined).1) "abc").
  { apply (bool_decide_unpack _). vm_compute. reflexivity. }
  exact (leave_resyncs_remaining_pages URL_basic 1 "sB" "abc" bob two_joined
           "sA" [bob; bob] two_joined_wf Hne Hin).
Defined.

(** ** Stored playback state and what was broadcast *)

Section StoredPlayback.
Variable URL_new : string → option URL.

Lemma step_playback_was_broadcast now sid ev s pre :
  wf_server s →
  playback_was_broadcast s pre →
  playback_was_broadcast (step URL_new now sid ev s).1
    (pre ++ (step URL_new now sid ev s).2).
Proof.
  intros Hwf Hinv roomId vs. unfold videoState_of. rewrite step_get by done.
  assert (∀ room, Map_get roomId (rooms s) = Some room →
                  videoState room = Some vs →
                  ∃ e ts, e ∈ pre ++ (step URL_new now sid ev s).2
                          ∧ payload e = url_changed (url vs) ts) as Hold.
  { intros room Hget Hvs. destruct (Hinv roomId vs) as (e & ts & He & Hp).
    - unfold videoState_of. by rewrite Hget.
    - exists e, ts. split; [|done]. apply elem_of_app. by left. }
  destruct ev as [|r user|r user|r u ts|r playing ts|r|r message user|].
  - destruct (Map_get roomId (rooms s)) as [room|] eqn:Hget; [|done]. eauto.
  - destruct (String.eqb r roomId).
    + cbn [videoState]. unfold videoState_of.
      destruct (Map_get roomId (rooms s)) as [room|] eqn:Hget; [|done]. eauto.
    + destruct (Map_get roomId (rooms s)) as [room|] eqn:Hget; [|done]. eauto.
  - destruct (String.eqb r roomId).
    + destruct (Map_get roomId (rooms s)) as [room|] eqn:Hget; [|done].
      destruct (_ =? _)%nat; [done|]. cbn [videoState with_members]. eauto.
    + destruct (Map_get roomId (rooms s)) as [room|] eqn:Hget; [|done]. eauto.
  - destruct (String.eqb r roomId) eqn:E.
    + apply String.eqb_eq in E. subst r.
      destruct (Map_get roomId (rooms s)) as [room|] eqn:Hget; [|done].
      cbn [videoState with_videoState]. intros [= <-].
      exists {| recipients := to_others (adapter s) sid roomId;
                payload := url_changed (convertToEmbedUrl URL_new u)
                             (default 0%float ts) |}, (default 0%float ts).
      split; [|done].
      apply elem_of_app. right. cbn [step]. unfold on_sync_url. cbn [snd].
      apply list_elem_of_here.
    + destruct (Map_get roomId (rooms s)) as [room|] eqn:Hget; [|done]. eauto.
  - destruct (String.eqb r roomId).
    + destruct (Map_get roomId (rooms s)) as [room|] eqn:Hget; [|done].
      destruct (videoState room) as [vs0|] eqn:Hvs0.
      * cbn [videoState with_videoState]. intros [= <-]. cbn [url].
        destruct (Hinv roomId vs0) as (e & ts' & He & Hp).
        { unfold videoState_of. by rewrite Hget. }
        exists e, ts'. split; [|done]. apply elem_of_app. by left.
      * by rewrite Hvs0.
    + destruct (Map_get roomId (rooms s)) as [room|] eqn:Hget; [|done]. eauto.
  - destruct (Map_get roomId (rooms s)) as [room|] eqn:Hget; [|done]. eauto.
  - destruct (Map_get roomId (rooms s)) as [room|] eqn:Hget; [|done]. eauto.
  - destruct (Map_get roomId (rooms s)) as [room|] eqn:Hget; [|done].
    destruct (Map_get sid (members room)); [|eauto].
    destruct (_ =? _)%nat; [done|]. cbn [videoState with_members]. eauto.
Qed.

Lemma run_playback_was_broadcast trace s pre :
  wf_server s →
  playback_was_broadcast s pre →
  playback_was_broadcast (run URL_new trace s).1
    (pre ++ (run URL_new trace s).2).
Proof.
  revert s pre. induction trace as [|[[now sid] ev] trace IH]; intros s pre Hwf Hinv.
  - cbn. by rewrite app_nil_r.
  - cbn [run].
    pose proof (step_wf URL_new now sid ev s Hwf) as Hwf1.
    pose proof (step_playback_was_broadcast now sid ev s pre Hwf Hinv) as Hinv1.
    destruct (step URL_new now sid ev s) as [s1 out1]. cbn [fst snd] in *.
    specialize (IH s1 (pre ++ out1) Hwf1 Hinv1).
    destruct (run URL_new trace s1) as [s2 out2]. cbn [fst snd] in *.
    by rewrite app_assoc.
Qed.

(** X22: the server stores no url it has not broadcast.  However the
    server is driven, the url in the playback state of any room (what a
    request-video-state would be answered with) is the url of a
    url-changed event the server sent earlier in the run. *)
Theorem stored_url_was_broadcast trace roomId vs :
  videoState_of roomId (run URL_new trace initial).1 = Some vs →
  ∃ e ts, e ∈ (run URL_new trace initial).2
          ∧ payload e = url_changed (url vs) ts.
Proof.
  intros Hvs.
  assert (playback_was_broadcast initial []) as Hinit.
  { intros r vs' H. discriminate H. }
  exact (run_playback_was_broadcast trace initial [] wf_initial Hinit roomId vs Hvs).
Qed.

End StoredPlayback.

Lemma stored_url_was_broadcast_witness :
  ∃ e ts,
    e ∈ (run URL_basic
           [ (0%Z, "sA", connection); (0%Z, "sB", connection);
             (0%Z, "sA", join_room "abc" alice);
             (0%Z, "sB", join_room "abc" bob);
             (0%Z, "sA", sync_url "abc" "https://youtu.be/xyz" (Some 3.5%float)) ]
           initial).2
    ∧ payload e = url_changed "https://www.youtube.com/embed/xyz" ts.
Proof.
  exact (stored_url_was_broadcast URL_basic
           [ (0%Z, "sA", connection); (0%Z, "sB", connection);
             (0%Z, "sA", join_room "abc" alice);
             (0%Z, "sB", join_room "abc" bob);
             (0%Z, "sA", sync_url "abc" "https://youtu.be/xyz" (Some 3.5%float)) ]
           "abc"
           {| url := "https://www.youtube.com/embed/xyz";
              timestamp := 3.5%float; isPlaying := true |}
           eq_refl).
Defined.

Lemma events_on_different_rooms_commute_witness :
  (step URL_basic 2 "sB" (sync_url "abc" "http://x" None)
     (step URL_basic 1 "sA" (join_room "xyz" alice) two_joined).1).2
  = (step URL_basic 2 "sB" (sync_url "abc" "http://x" None) two_joined).2.
Proof.
  assert (Hne : "xyz" ≠ "abc") by discriminate.
  assert (Hown : "xyz" ≠ "sB") by discriminate.
  exact (proj1 (events_on_different_rooms_commute URL_basic 1 2 "sA" "sB"
                  (join_room "xyz" alice) (sync_url "abc" "http://x" None)
                  "xyz" "abc" two_joined two_joined_wf eq_refl eq_refl Hne
                  Hown)).
Defined.
